(** * BEI stock screener: client reconciliation, ranking and store schema

    A shallow embedding of
    - [frontend/src/types/stock.ts]       (the [Stock] and [MarketStatus] rows),
    - [frontend/src/hooks/useStocks.ts]   (fetch, realtime handlers, ranking),
    - [frontend/src/components/StatsCards.tsx] (the pass-rate card),
    - [supabase/schema.sql]               (column defaults, the singleton
                                           [market_status] table, the
                                           [screened_stocks] view),
    followed by the properties checked against the specification.

    Numbers.  The TypeScript interface types every numeric field as [number];
    the values come from the columns of [schema.sql], so a column declared
    [INTEGER] or [BIGINT] is a [Z] and a column declared [DECIMAL(_, 2)] is a
    rational [Q].  Only sign tests and integer sums are performed on them by
    the client. *)

From Stdlib Require Import ZArith QArith Qround String List Permutation.
From Stdlib Require Import Sorting.Sorted Lqa.
From stdpp Require Import base option list sorting gmap strings fin_maps.

Close Scope Q_scope.
Local Open Scope Z_scope.

(** ** Data model: [frontend/src/types/stock.ts] *)

(** [acc_dist_status: 'accumulation' | 'distribution' | 'neutral'] *)
Inductive AccDistStatus : Set :=
| accumulation
| distribution
| neutral.

#[global] Instance AccDistStatus_eq_dec : EqDecision AccDistStatus.
Proof. solve_decision. Defined.

Record Stock : Type := {
  symbol : string;
  name : string;
  price : Q;
  open_price : Q;
  high : Q;
  low : Q;
  prev_close : Q;
  volume : Z;
  avg_volume : Z;
  change : Q;
  change_percent : Q;
  (* Order Book *)
  bid : Q;
  ask : Q;
  bid_size : Z;
  ask_size : Z;
  (* IEP/IEV *)
  iep : Q;
  iev : Z;
  (* ARA/ARB *)
  ara : Q;
  arb : Q;
  ara_pct : Q;
  arb_pct : Q;
  (* Market Data *)
  market_cap : Z;
  frequency : Z;
  value : Q;
  (* Foreign Flow *)
  foreign_buy : Z;
  foreign_sell : Z;
  net_foreign : Z;
  (* Accumulation/Distribution *)
  acc_dist_status : AccDistStatus;
  acc_dist_score : Z;
  (* Calculated *)
  volatility : Q;
  spread : Q;
  volume_spike : Q;
  rsi : Q;
  score : Z;
  passed_screen : bool;
  updated_at : string;
  created_at : string
}.

Module MS.
Record MarketStatus : Type := {
  id : Z;
  status : string;
  session : string;
  message : string;
  can_trade : bool;
  should_update : bool;
  updated_at : string
}.
End MS.

(** [x > 0] on a [DECIMAL] column. *)
Definition Qgtb (x y : Q) : bool := negb (Qle_bool x y).

(** ** [Array.prototype.sort(compareFn)]

    ECMAScript (2019 and later) requires the sort to be stable; for a
    consistent comparator the result is therefore the one stable sorted
    permutation, whatever algorithm the engine runs.  It is written here as a
    stable insertion sort: [a] is placed before [b] when
    [compareFn(a, b) <= 0] and [a] came first. *)

Fixpoint sort_insert {A : Type} (compareFn : A → A → Z) (x : A) (l : list A)
  : list A :=
  match l with
  | [] => [x]
  | y :: l' =>
      if compareFn x y <=? 0 then x :: y :: l'
      else y :: sort_insert compareFn x l'
  end.

Definition js_sort {A : Type} (compareFn : A → A → Z) (l : list A) : list A :=
  foldr (sort_insert compareFn) [] l.

(** The order a comparator [key b - key a] aims at: descending in [key]. *)
Definition desc_by {A : Type} (key : A → Z) : relation A :=
  λ a b, key b ≤ key a.

(** ** The store: [supabase/schema.sql] *)

Module Schema.

(** *** Table [stocks]: the numeric columns and their [DEFAULT] clauses *)

Module Col.
Inductive t : Set :=
| price | open_price | high | low | prev_close | change | change_percent
| volume | avg_volume | frequency | value
| bid | ask | bid_size | ask_size
| iep | iev
| ara | arb | ara_pct | arb_pct
| foreign_buy | foreign_sell | net_foreign
| acc_dist_score
| market_cap | volatility | spread | volume_spike | rsi | score.
End Col.

(** The [DEFAULT] of each numeric column, as declared. *)
Definition column_default (c : Col.t) : Q :=
  match c with
  | Col.price => 0%Q
  | Col.open_price => 0%Q
  | Col.high => 0%Q
  | Col.low => 0%Q
  | Col.prev_close => 0%Q
  | Col.change => 0%Q
  | Col.change_percent => 0%Q
  | Col.volume => 0%Q
  | Col.avg_volume => 0%Q
  | Col.frequency => 0%Q
  | Col.value => 0%Q
  | Col.bid => 0%Q
  | Col.ask => 0%Q
  | Col.bid_size => 0%Q
  | Col.ask_size => 0%Q
  | Col.iep => 0%Q
  | Col.iev => 0%Q
  | Col.ara => 0%Q
  | Col.arb => 0%Q
  | Col.ara_pct => 0%Q
  | Col.arb_pct => 0%Q
  | Col.foreign_buy => 0%Q
  | Col.foreign_sell => 0%Q
  | Col.net_foreign => 0%Q
  | Col.acc_dist_score => 0%Q
  | Col.market_cap => 0%Q
  | Col.volatility => 0%Q
  | Col.spread => 0%Q
  | Col.volume_spike => 100%Q
  | Col.rsi => 50%Q
  | Col.score => 0%Q
  end.

(** The declared type of a numeric column; every [DECIMAL] column of the
    table has scale 2. *)
Inductive ColumnType : Set :=
| Decimal2 (precision : Z)
| BigInt
| Integer.

(** The type of each numeric column, as declared. *)
Definition column_type (c : Col.t) : ColumnType :=
  match c with
  | Col.price => Decimal2 15
  | Col.open_price => Decimal2 15
  | Col.high => Decimal2 15
  | Col.low => Decimal2 15
  | Col.prev_close => Decimal2 15
  | Col.change => Decimal2 15
  | Col.change_percent => Decimal2 8
  | Col.volume => BigInt
  | Col.avg_volume => BigInt
  | Col.frequency => Integer
  | Col.value => Decimal2 20
  | Col.bid => Decimal2 15
  | Col.ask => Decimal2 15
  | Col.bid_size => BigInt
  | Col.ask_size => BigInt
  | Col.iep => Decimal2 15
  | Col.iev => BigInt
  | Col.ara => Decimal2 15
  | Col.arb => Decimal2 15
  | Col.ara_pct => Decimal2 8
  | Col.arb_pct => Decimal2 8
  | Col.foreign_buy => BigInt
  | Col.foreign_sell => BigInt
  | Col.net_foreign => BigInt
  | Col.acc_dist_score => Integer
  | Col.market_cap => BigInt
  | Col.volatility => Decimal2 8
  | Col.spread => Decimal2 8
  | Col.volume_spike => Decimal2 8
  | Col.rsi => Decimal2 8
  | Col.score => Integer
  end.

(** The numeric columns, in the order of the [CREATE TABLE]. *)
Definition columns : list Col.t :=
  [ Col.price; Col.open_price; Col.high; Col.low; Col.prev_close; Col.change;
    Col.change_percent; Col.volume; Col.avg_volume; Col.frequency; Col.value;
    Col.bid; Col.ask; Col.bid_size; Col.ask_size; Col.iep; Col.iev;
    Col.ara; Col.arb; Col.ara_pct; Col.arb_pct;
    Col.foreign_buy; Col.foreign_sell; Col.net_foreign;
    Col.acc_dist_score; Col.market_cap; Col.volatility; Col.spread;
    Col.volume_spike; Col.rsi; Col.score ].

(** Rounding of an SQL [numeric] to an integer: to the nearest, ties away
    from zero. *)
Definition round_half_away (q : Q) : Z :=
  if Qle_bool 0 q then Qfloor (q + (1 # 2))%Q
  else - Qfloor (- q + (1 # 2))%Q.

(** The conversion of a numeric literal of the [INSERT] to a column's type.
    [DECIMAL(p, 2)] rounds to two decimals and fails with "numeric field
    overflow" when the rounded value needs more than [p] digits; [BIGINT] and
    [INTEGER] round to an integer and fail when it is out of range.  [None]
    is the failure. *)
Definition coerce (ty : ColumnType) (q : Q) : option Q :=
  match ty with
  | Decimal2 p =>
      let r := round_half_away (q * 100)%Q in
      if Z.abs r <? 10 ^ p then Some (Qmake r 100) else None
  | BigInt =>
      let r := round_half_away q in
      if (- 2 ^ 63 <=? r) && (r <=? 2 ^ 63 - 1) then Some (inject_Z r)
      else None
  | Integer =>
      let r := round_half_away q in
      if (- 2 ^ 31 <=? r) && (r <=? 2 ^ 31 - 1) then Some (inject_Z r)
      else None
  end.

(** What an [INSERT INTO stocks] says about one numeric column: the column
    is left out of the statement, or it is given a value, which may be an
    explicit [NULL] (no numeric column is declared [NOT NULL]). *)
Inductive Supplied : Type :=
| Omitted
| Given (v : option Q).

(** The numeric part of a stored row; [None] is SQL [NULL]. *)
Definition NumericRow : Type := Col.t → option Q.

(** What one column stores: its [DEFAULT] when left out, [NULL] when given
    [NULL], and otherwise the value converted to the column's type.  The
    outer [None] is a value that does not fit, which rejects the statement. *)
Definition store (c : Col.t) (s : Supplied) : option (option Q) :=
  match s with
  | Omitted => Some (Some (column_default c))
  | Given None => Some None
  | Given (Some v) =>
      match coerce (column_type c) v with
      | Some v' => Some (Some v')
      | None => None
      end
  end.

(** The row the [INSERT] stores when every column accepts its value. *)
Definition row_of (vals : Col.t → Supplied) : NumericRow :=
  λ c, default None (store c (vals c)).

(** The [INSERT] as a whole: [None] when some value does not fit its column
    (nothing is stored), and otherwise the stored row. *)
Definition insert_numeric (vals : Col.t → Supplied) : option NumericRow :=
  if forallb (λ c, match store c (vals c) with
                   | Some _ => true
                   | None => false
                   end) columns
  then Some (row_of vals)
  else None.

(** *** Table [market_status] *)

(** [CONSTRAINT single_row CHECK (id = 1)] *)
Definition single_row (r : MS.MarketStatus) : bool := MS.id r =? 1.

(** [id INTEGER PRIMARY KEY]: no stored row has the new row's [id]. *)
Definition key_free (r : MS.MarketStatus) (t : list MS.MarketStatus) : bool :=
  forallb (λ r', negb (MS.id r' =? MS.id r)) t.

(** [INSERT INTO market_status VALUES r]; [None] is a rejected statement
    (constraint violation), which leaves the table as it was. *)
Definition insert (r : MS.MarketStatus) (t : list MS.MarketStatus)
  : option (list MS.MarketStatus) :=
  if single_row r then
    if key_free r t then Some (t ++ [r]) else None
  else None.

(** [INSERT ... ON CONFLICT (id) DO NOTHING] *)
Definition insert_on_conflict_do_nothing
    (r : MS.MarketStatus) (t : list MS.MarketStatus)
  : option (list MS.MarketStatus) :=
  if single_row r then
    if key_free r t then Some (t ++ [r]) else Some t
  else None.

(** The row of "Insert default market status"; [now] is the value of
    [NOW()] taken by the [updated_at] default. *)
Definition default_status (now : string) : MS.MarketStatus :=
  {| MS.id := 1;
     MS.status := "closed";
     MS.session := "unknown";
     MS.message := "Initializing...";
     MS.can_trade := false;
     MS.should_update := false;
     MS.updated_at := now |}.

(** The table once the schema script has run on a fresh database. *)
Definition market_status_init (now : string) : list MS.MarketStatus :=
  default [] (insert_on_conflict_do_nothing (default_status now) []).

(** Modelled from the spec: the State Publisher's write of the status
    (the scraper, not part of these sources).  Section 4.5: "The singleton
    status row is always fully replaced, never partially patched": an
    upsert keyed by [id] that stores the whole new row. *)
Definition publish_status (r : MS.MarketStatus) (t : list MS.MarketStatus)
  : option (list MS.MarketStatus) :=
  if single_row r then
    if key_free r t then Some (t ++ [r])
    else Some ((λ r', if MS.id r' =? MS.id r then r else r') <$> t)
  else None.

(** A sequence of publisher writes; a rejected write changes nothing. *)
Definition publish_all (t : list MS.MarketStatus) (ws : list MS.MarketStatus)
  : list MS.MarketStatus :=
  foldl (λ t r, default t (publish_status r t)) t ws.

(** *** Ordered reads of [stocks]

    SQL fixes the result of [ORDER BY] only up to the order of rows that
    tie on every sort key, so an ordered read is a relation between the
    table's rows and the delivered sequence. *)

(** [ORDER BY score DESC] *)
Definition order_by_score_desc (rows out : list Stock) : Prop :=
  out ≡ₚ rows ∧ Sorted (desc_by score) out.

(** [ORDER BY score DESC, symbol ASC] (symbols compared bytewise). *)
Definition score_desc_symbol_asc : relation Stock :=
  λ a b, score b < score a
         ∨ (score a = score b ∧ String.leb (symbol a) (symbol b) = true).

(** [CREATE VIEW screened_stocks AS SELECT * FROM stocks
     WHERE passed_screen = TRUE ORDER BY score DESC, symbol ASC] *)
Definition screened_stocks (rows out : list Stock) : Prop :=
  out ≡ₚ filter (λ s, passed_screen s = true) rows
  ∧ Sorted score_desc_symbol_asc out.

End Schema.

(** ** The hook: [frontend/src/hooks/useStocks.ts] *)

Module useStocks.

(** [useState] cells of the hook. *)
Record State : Type := {
  stocks : list Stock;
  marketStatus : option MS.MarketStatus;
  loading : bool;
  error : option string
}.

(** Initial values of the four [useState] calls. *)
Definition init : State :=
  {| stocks := []; marketStatus := None; loading := true; error := None |}.

Definition setStocks (f : list Stock → list Stock) (st : State) : State :=
  {| stocks := f (stocks st); marketStatus := marketStatus st;
     loading := loading st; error := error st |}.

Definition setMarketStatus (m : option MS.MarketStatus) (st : State) : State :=
  {| stocks := stocks st; marketStatus := m;
     loading := loading st; error := error st |}.

Definition setLoading (b : bool) (st : State) : State :=
  {| stocks := stocks st; marketStatus := marketStatus st;
     loading := b; error := error st |}.

Definition setError (e : option string) (st : State) : State :=
  {| stocks := stocks st; marketStatus := marketStatus st;
     loading := loading st; error := e |}.

(** [(a, b) => b.score - a.score], the comparator of both handler sorts. *)
Definition byScore (a b : Stock) : Z := score b - score a.

(** The realtime payload of the [stocks] channel: [eventType] with
    [payload.new] (a row) or [payload.old] (its symbol). *)
Inductive StockPayload : Type :=
| INSERT (new : Stock)
| UPDATE (new : Stock)
| DELETE (old_symbol : string).

(** [prev.findIndex((s) => s.symbol === newStock.symbol)]; JavaScript's
    [-1] is [None]. *)
Definition findIndex (newStock : Stock) (prev : list Stock) : option nat :=
  fst <$> list_find (λ s, symbol s = symbol newStock) prev.

(** The updater passed to [setStocks] for an INSERT or UPDATE event. *)
Definition upsertStock (newStock : Stock) (prev : list Stock) : list Stock :=
  match findIndex newStock prev with
  | Some index =>
      let updated := <[index := newStock]> prev in
      js_sort byScore updated
  | None => js_sort byScore (prev ++ [newStock])
  end.

(** The updater passed to [setStocks] for a DELETE event. *)
Definition deleteStock (old_symbol : string) (prev : list Stock) : list Stock :=
  filter (λ s, symbol s ≠ old_symbol) prev.

(** The callback of the [stocks-changes] channel. *)
Definition onStockChange (payload : StockPayload) (st : State) : State :=
  match payload with
  | INSERT newStock | UPDATE newStock => setStocks (upsertStock newStock) st
  | DELETE old_symbol => setStocks (deleteStock old_symbol) st
  end.

(** The updater [onStockChange] hands to [setStocks]. *)
Definition stockUpdater (payload : StockPayload) : list Stock → list Stock :=
  match payload with
  | INSERT newStock | UPDATE newStock => upsertStock newStock
  | DELETE old_symbol => deleteStock old_symbol
  end.

(** The realtime payload of the [market-status-changes] channel. *)
Inductive StatusPayload : Type :=
| STATUS_INSERT (new : MS.MarketStatus)
| STATUS_UPDATE (new : MS.MarketStatus)
| STATUS_DELETE.

(** The callback of the [market-status-changes] channel: only UPDATE is
    handled. *)
Definition onStatusChange (payload : StatusPayload) (st : State) : State :=
  match payload with
  | STATUS_UPDATE new => setMarketStatus (Some new) st
  | STATUS_INSERT _ | STATUS_DELETE => st
  end.

(** [getRecommendationScore] *)
Definition getRecommendationScore (s : Stock) : Z :=
  let recScore := score s in
  let recScore :=
    match acc_dist_status s with
    | accumulation => recScore + 50
    | _ => recScore
    end in
  let recScore := if 0 <? net_foreign s then recScore + 30 else recScore in
  let recScore :=
    if Qgtb (change_percent s) 0 then recScore + 20 else recScore in
  recScore.

(** [sortByRecommendation] *)
Definition sortByRecommendation (a b : Stock) : Z :=
  getRecommendationScore b - getRecommendationScore a.

(** [stocks.filter((s) => s.passed_screen).sort(sortByRecommendation)] *)
Definition screenedStocks (st : State) : list Stock :=
  js_sort sortByRecommendation (filter (λ s, passed_screen s = true) (stocks st)).

(** The [stocks] member of the returned object:
    [[...stocks].sort(sortByRecommendation)]. *)
Definition returnedStocks (st : State) : list Stock :=
  js_sort sortByRecommendation (stocks st).

(** What the two awaited queries of [fetchStocks] deliver: the [stocks]
    query either fails ([stocksError] is thrown; it carries a message when
    it is an [Error] instance) or returns [data], which may be [null]; the
    status query returns a row or [null]. *)
Record FetchResult : Type := {
  stocksData : option (list Stock);
  stocksError : option (option string);
  statusData : option MS.MarketStatus
}.

(** [fetchStocks], from [setLoading(true)] to the [finally] block. *)
Definition fetchStocks (r : FetchResult) (st : State) : State :=
  let st := setLoading true st in
  let st := setError None st in
  let st :=
    match stocksError r with
    | Some err =>
        setError (Some (default "Failed to fetch data"%string err)) st
    | None =>
        let st := setStocks (λ _, default [] (stocksData r)) st in
        setMarketStatus (statusData r) st
    end in
  setLoading false st.

(** The stream of everything the hook reacts to, in arrival order. *)
Inductive Input : Type :=
| Fetched (r : FetchResult)
| StockChange (p : StockPayload)
| StatusChange (p : StatusPayload).

Definition step (st : State) (i : Input) : State :=
  match i with
  | Fetched r => fetchStocks r st
  | StockChange p => onStockChange p st
  | StatusChange p => onStatusChange p st
  end.

Definition run (st : State) (inputs : list Input) : State :=
  foldl step st inputs.

End useStocks.

(** ** The pass-rate card: [frontend/src/components/StatsCards.tsx] *)

Module StatsCards.

(** The outcomes of a JavaScript division of two integer-valued numbers. *)
Inductive JsNumber : Type :=
| Finite (q : Q)
| Infinity (negative : bool)
| NaN.

(** [a / b]: a zero divisor gives [NaN] for [0 / 0] and an infinity
    otherwise. *)
Definition div (a b : Z) : JsNumber :=
  if b =? 0 then
    if a =? 0 then NaN else Infinity (a <? 0)
  else Finite (inject_Z a / inject_Z b)%Q.

(** [x * 100] *)
Definition times100 (x : JsNumber) : JsNumber :=
  match x with
  | Finite q => Finite (q * 100)%Q
  | Infinity n => Infinity n
  | NaN => NaN
  end.

(** What React renders inside the card: the text of [toFixed(1)], or the
    number of the else branch. *)
Inductive Rendered : Type :=
| Fixed1 (tenths : Z)
| TextInfinity (negative : bool)
| TextNaN
| Number (n : Z).

(** The integer [n] with [n / 10] nearest to [q], the larger one on a tie
    (the sign is handled apart, as [Number.prototype.toFixed] does). *)
Definition nearest_tenth (q : Q) : Z :=
  if Qle_bool 0 q then Qfloor (q * 10 + (1 # 2))%Q
  else - Qfloor ((- q) * 10 + (1 # 2))%Q.

(** [x.toFixed(1)].  The quotient is taken as the exact rational, where the
    browser rounds the nearest IEEE double: the last digit can differ (23 of
    80 is shown as 28.7 and is 288 tenths here), the kind of result cannot.
    The arguments are array lengths, far below the magnitude at which
    [toFixed] switches to exponent notation. *)
Definition toFixed1 (x : JsNumber) : Rendered :=
  match x with
  | Finite q => Fixed1 (nearest_tenth q)
  | Infinity n => TextInfinity n
  | NaN => TextNaN
  end.

(** [totalStocks > 0 ? ((screenedStocks / totalStocks) * 100).toFixed(1) : 0] *)
Definition passRate (totalStocks screenedStocks : Z) : Rendered :=
  if 0 <? totalStocks
  then toFixed1 (times100 (div screenedStocks totalStocks))
  else Number 0.

End StatsCards.

(** ** The screening rule *)

Module Screening.

(** Modelled from the spec: the thresholds and weights of the Screening and
    Scoring Engine (the scraper that computes [score] and [passed_screen]
    is not part of these sources).  Section 4.3 lists them as tunable
    configuration. *)
Record Config : Type := {
  price_min : Q;
  price_max : Q;
  volume_min : Z;
  volatility_min : Q;
  change_percent_min : Q;
  spread_max : Q;
  weight_price : Z;
  weight_liquidity : Z;
  weight_volatility : Z;
  weight_momentum : Z;
  weight_spread : Z
}.

(** Modelled from the spec: the default values of the table of section 4.3
    (the README's "Kriteria Screening" table lists the same). *)
Definition defaults : Config :=
  {| price_min := 100%Q;
     price_max := 10000%Q;
     volume_min := 1000000;
     volatility_min := 2%Q;
     change_percent_min := (1 # 2)%Q;
     spread_max := 2%Q;
     weight_price := 20;
     weight_liquidity := 25;
     weight_volatility := 20;
     weight_momentum := 15;
     weight_spread := 20 |}.

(** Modelled from the spec: the five criteria of section 4.3, each
    evaluated on its own (the scraper's tests are missing). *)
Definition price_band (c : Config) (s : Stock) : bool :=
  Qle_bool (price_min c) (price s) && Qle_bool (price s) (price_max c).

Definition liquidity (c : Config) (s : Stock) : bool :=
  volume_min c <? volume s.

Definition volatile (c : Config) (s : Stock) : bool :=
  Qgtb (volatility s) (volatility_min c).

Definition momentum (c : Config) (s : Stock) : bool :=
  Qgtb (change_percent s) (change_percent_min c).

Definition tight_spread (c : Config) (s : Stock) : bool :=
  Qgtb (spread_max c) (spread s).

(** Modelled from the spec: [score], "the sum of weights of passed
    criteria only; failing a criterion contributes 0" (the scraper's
    scoring function is missing). *)
Definition compute_score (c : Config) (s : Stock) : Z :=
  let total := 0 in
  let total := if price_band c s then total + weight_price c else total in
  let total := if liquidity c s then total + weight_liquidity c else total in
  let total := if volatile c s then total + weight_volatility c else total in
  let total := if momentum c s then total + weight_momentum c else total in
  let total := if tight_spread c s then total + weight_spread c else total in
  total.

(** Modelled from the spec: [passed_screen], the five criteria "combined
    by logical AND" (the scraper's screening function is missing). *)
Definition compute_passed (c : Config) (s : Stock) : bool :=
  price_band c s && liquidity c s && volatile c s && momentum c s
  && tight_spread c s.

(** The criteria table as data: each criterion with its weight. *)
Definition criteria (c : Config) : list ((Stock → bool) * Z) :=
  [ (price_band c, weight_price c);
    (liquidity c, weight_liquidity c);
    (volatile c, weight_volatility c);
    (momentum c, weight_momentum c);
    (tight_spread c, weight_spread c) ].

(** The sum of the weights of exactly the criteria that pass on [s]. *)
Definition passed_weight (c : Config) (s : Stock) : Z :=
  foldr Z.add 0 (snd <$> filter (λ cw, fst cw s = true) (criteria c)).

End Screening.

(** ** Sample rows *)

Module Sample.

(** A row with the given ranking inputs; every other column holds its
    schema default. *)
Definition row (sym : string) (sc : Z) (ad : AccDistStatus) (nf : Z) (cp : Q)
    (passed : bool) : Stock :=
  {| symbol := sym; name := sym;
     price := 0; open_price := 0; high := 0; low := 0; prev_close := 0;
     volume := 0; avg_volume := 0; change := 0; change_percent := cp;
     bid := 0; ask := 0; bid_size := 0; ask_size := 0;
     iep := 0; iev := 0;
     ara := 0; arb := 0; ara_pct := 0; arb_pct := 0;
     market_cap := 0; frequency := 0; value := 0;
     foreign_buy := 0; foreign_sell := 0; net_foreign := nf;
     acc_dist_status := ad; acc_dist_score := 0;
     volatility := 0; spread := 0; volume_spike := 100; rsi := 50;
     score := sc; passed_screen := passed;
     updated_at := ""; created_at := "" |}.

(** Score 60, no bonus: combined ranking 60. *)
Definition ASII : Stock := row "ASII" 60 neutral 0 0 true.

(** Score 50, all three bonuses: combined ranking 150. *)
Definition BBCA : Stock := row "BBCA" 50 accumulation 1200 (3 # 2) true.

(** Score 40, failing the screen. *)
Definition GOTO : Stock := row "GOTO" 40 neutral 0 0 false.

(** Two rows with the same combined ranking 60. *)
Definition TLKM : Stock := row "TLKM" 60 neutral 0 0 true.
Definition ANTM : Stock := row "ANTM" 60 neutral 0 0 true.

(** A new snapshot of ASII. *)
Definition ASII' : Stock := row "ASII" 80 neutral 0 0 true.

(** The scenario of section 8: ABCD at 500, and the same row at 50. *)
Definition ABCD (p : Q) : Stock :=
  {| symbol := "ABCD"; name := "ABCD";
     price := p; open_price := 490; high := 520; low := 480;
     prev_close := 490;
     volume := 2000000; avg_volume := 0; change := 10;
     change_percent := (204 # 100);
     bid := 498; ask := 502; bid_size := 0; ask_size := 0;
     iep := 0; iev := 0;
     ara := 0; arb := 0; ara_pct := 0; arb_pct := 0;
     market_cap := 0; frequency := 0; value := 0;
     foreign_buy := 0; foreign_sell := 0; net_foreign := 0;
     acc_dist_status := neutral; acc_dist_score := 0;
     volatility := (816 # 100); spread := (8 # 10);
     volume_spike := 100; rsi := 50;
     score := 0; passed_screen := false;
     updated_at := ""; created_at := "" |}.

(** An initial fetch of three symbols and a run of change events. *)
Definition fetched : list Stock := [ASII; BBCA; GOTO].

Definition events : list useStocks.StockPayload :=
  [ useStocks.UPDATE ASII'; useStocks.DELETE "GOTO"; useStocks.INSERT TLKM ].

(** A table none of whose rows earns a bonus, and the order the server
    delivers it in. *)
Definition plain_rows : list Stock := [GOTO; TLKM].
Definition plain_delivered : list Stock := [TLKM; GOTO].

(** An [INSERT INTO stocks (symbol, name)] that names no numeric column. *)
Definition nothing_supplied : Schema.Col.t → Schema.Supplied :=
  λ _, Schema.Omitted.


(** An insert that gives [change_percent] the value 1.005 and leaves out the
    other numeric columns, and one that gives it 1000000. *)
Definition change_percent_given (v : Q) : Schema.Col.t → Schema.Supplied :=
  λ c, match c with
       | Schema.Col.change_percent => Schema.Given (Some v)
       | _ => Schema.Omitted
       end.

Definition status_open : MS.MarketStatus :=
  {| MS.id := 1; MS.status := "open"; MS.session := "session_1";
     MS.message := "Market is open"; MS.can_trade := true;
     MS.should_update := true; MS.updated_at := "2024-01-02T02:00:00Z" |}.

Definition status_second : MS.MarketStatus :=
  {| MS.id := 2; MS.status := "open"; MS.session := "session_1";
     MS.message := "Market is open"; MS.can_trade := true;
     MS.should_update := true; MS.updated_at := "2024-01-02T02:00:00Z" |}.

End Sample.

(** ** The specification's reading of the local state

    Section 9 asks for "a key-indexed mapping updated transactionally per
    event".  This is that mapping, written from the specification's words, to
    be compared with the list the hook keeps. *)

Module Keyed.

(** The rows of a list, indexed by symbol. *)
Definition of_list (l : list Stock) : gmap string Stock :=
  list_to_map ((λ s, (symbol s, s)) <$> l).

(** An insert or update event writes the row under its symbol; a delete
    event removes the entry of the symbol. *)
Definition apply (m : gmap string Stock) (p : useStocks.StockPayload)
  : gmap string Stock :=
  match p with
  | useStocks.INSERT s | useStocks.UPDATE s => <[symbol s := s]> m
  | useStocks.DELETE k => delete k m
  end.

(** The events folded in arrival order. *)
Definition apply_all (m : gmap string Stock)
    (ps : list useStocks.StockPayload) : gmap string Stock :=
  foldl apply m ps.

End Keyed.

(** The hook's list state under a sequence of [stocks] change events. *)
Definition reconcile (l : list Stock) (ps : list useStocks.StockPayload)
  : list Stock :=
  useStocks.stocks
    (useStocks.run
       {| useStocks.stocks := l; useStocks.marketStatus := None;
          useStocks.loading := false; useStocks.error := None |}
       (useStocks.StockChange <$> ps)).

(** The presentation ranking the specification words: descending in the
    combined value, symbols ascending among exact ties. *)
Definition ranked_with_symbol_ties : relation Stock :=
  λ a b,
    useStocks.getRecommendationScore b < useStocks.getRecommendationScore a
    ∨ (useStocks.getRecommendationScore a = useStocks.getRecommendationScore b
       ∧ String.leb (symbol a) (symbol b) = true).

(** The three bonuses a row earns on top of its score. *)
Definition bonus (s : Stock) : Z := useStocks.getRecommendationScore s - score s.

(** ** Table [stocks]: the primary key *)

Module StocksTable.

(** [symbol VARCHAR(10) PRIMARY KEY]: no stored row has the new row's
    symbol. *)
Definition key_free (r : Stock) (t : list Stock) : bool :=
  forallb (λ r', negb (String.eqb (symbol r') (symbol r))) t.

(** [INSERT INTO stocks VALUES r]; [None] is a rejected statement, which
    leaves the table as it was.  [fits] stands for the column type checks of
    the row ([VARCHAR(10)], [VARCHAR(255) NOT NULL], the [DECIMAL]
    precisions). *)
Definition insert (fits : Stock → bool) (r : Stock) (t : list Stock)
  : option (list Stock) :=
  if fits r then
    if key_free r t then Some (t ++ [r]) else None
  else None.

(** A sequence of inserts; a rejected one changes nothing. *)
Definition insert_all (fits : Stock → bool) (t : list Stock) (rs : list Stock)
  : list Stock :=
  foldl (λ t r, default t (insert fits r t)) t rs.

End StocksTable.

(** ** Inputs of the hook, by the state cell they can reach *)

(** A fetch that delivers what the [stocks] query can deliver: one row per
    symbol, in the order of [ORDER BY score DESC]. *)
Definition well_delivered (i : useStocks.Input) : Prop :=
  match i with
  | useStocks.Fetched r =>
      match useStocks.stocksData r with
      | Some l => NoDup (symbol <$> l) ∧ Sorted (desc_by score) l
      | None => True
      end
  | _ => True
  end.

(** Everything but the events of the [market-status-changes] channel. *)
Definition reaches_stocks (i : useStocks.Input) : bool :=
  match i with
  | useStocks.StatusChange _ => false
  | _ => true
  end.

(** Fetches and status UPDATE events. *)
Definition reaches_status (i : useStocks.Input) : bool :=
  match i with
  | useStocks.Fetched _ => true
  | useStocks.StatusChange (useStocks.STATUS_UPDATE _) => true
  | _ => false
  end.

(** ** The page: [frontend/src/App.tsx] *)

Module App.

(** The two [useState] cells of [App]. *)
Record State : Type := {
  showScreenedOnly : bool;
  searchTerm : string
}.

Definition init : State := {| showScreenedOnly := true; searchTerm := "" |}.

(** [s.includes(sub)]: [sub] occurs in [s] at some position. *)
Fixpoint includes (s sub : string) : bool :=
  String.prefix sub s
  || match s with
     | EmptyString => false
     | String _ s' => includes s' sub
     end.

(** [showScreenedOnly ? screenedStocks : stocks] *)
Definition displayStocks (hook : useStocks.State) (app : State) : list Stock :=
  if showScreenedOnly app then useStocks.screenedStocks hook
  else useStocks.returnedStocks hook.

(** The predicate of [filteredStocks]; [toLowerCase] is the built-in
    [String.prototype.toLowerCase]. *)
Definition matches (toLowerCase : string → string) (app : State)
    (stock : Stock) : bool :=
  includes (toLowerCase (symbol stock)) (toLowerCase (searchTerm app))
  || includes (toLowerCase (name stock)) (toLowerCase (searchTerm app)).

(** [displayStocks.filter(...)] *)
Definition filteredStocks (toLowerCase : string → string)
    (hook : useStocks.State) (app : State) : list Stock :=
  filter (λ stock, matches toLowerCase app stock = true)
    (displayStocks hook app).

(** The pass-rate card as [App] feeds it:
    [totalStocks={stocks.length}], [screenedStocks={screenedStocks.length}]. *)
Definition passRateCard (hook : useStocks.State) : StatsCards.Rendered :=
  StatsCards.passRate
    (Z.of_nat (length (useStocks.returnedStocks hook)))
    (Z.of_nat (length (useStocks.screenedStocks hook))).

End App.

(** ** The status bar: [frontend/src/components/MarketStatusBar.tsx] *)

Module MarketStatusBar.






End MarketStatusBar.

(** ** The table: [frontend/src/components/StockTable.tsx] *)

Module StockTable.

Inductive Suffix : Set := T | B | M | K.

(** The result of [formatNumber]: [(num / 1eN).toFixed(2) + suffix], given
    by the quotient handed to [toFixed] and the letter appended, or
    [num.toLocaleString('id-ID')]. *)
Inductive Formatted : Type :=
| Abbreviated (scaled : Q) (suffix : Suffix)
| Localized (num : Q).

(** [formatNumber] *)
Definition formatNumber (num : Q) : Formatted :=
  if Qle_bool 1000000000000 num then Abbreviated (num / 1000000000000) T
  else if Qle_bool 1000000000 num then Abbreviated (num / 1000000000) B
  else if Qle_bool 1000000 num then Abbreviated (num / 1000000) M
  else if Qle_bool 1000 num then Abbreviated (num / 1000) K
  else Localized num.

(** The [onClick] of a row:
    [setExpandedRow(expandedRow === stock.symbol ? null : stock.symbol)]. *)
Definition onRowClick (sym : string) (expandedRow : option string)
  : option string :=
  if decide (expandedRow = Some sym) then None else Some sym.

(** A run of clicks on rows, from a given [expandedRow]. *)
Definition clicks (expandedRow : option string) (syms : list string)
  : option string :=
  foldl (λ e sym, onRowClick sym e) expandedRow syms.

(** The rows whose detail row is rendered:
    [expandedRow === stock.symbol && ...]. *)
Definition expandedRows (expandedRow : option string) (stocks : list Stock)
  : list Stock :=
  filter (λ stock, expandedRow = Some (symbol stock)) stocks.

End StockTable.

(** ** More sample data *)

Module Sample2.

(** Lower-casing of ASCII letters, enough for the symbols of the samples. *)
Definition lower_ascii (c : Ascii.ascii) : Ascii.ascii :=
  let n := Ascii.nat_of_ascii c in
  if (65 <=? n)%nat && (n <=? 90)%nat then Ascii.ascii_of_nat (n + 32) else c.

Fixpoint lower (s : string) : string :=
  match s with
  | EmptyString => EmptyString
  | String c s' => String (lower_ascii c) (lower s')
  end.

Definition hook : useStocks.State :=
  {| useStocks.stocks := Sample.fetched; useStocks.marketStatus := None;
     useStocks.loading := false; useStocks.error := None |}.

(** A refresh whose [stocks] query delivers two rows in score order. *)
Definition refresh : useStocks.FetchResult :=
  {| useStocks.stocksData := Some [Sample.ASII; Sample.BBCA];
     useStocks.stocksError := None;
     useStocks.statusData := Some Sample.status_open |}.

Definition session : list useStocks.Input :=
  [ useStocks.Fetched refresh;
    useStocks.StockChange (useStocks.INSERT Sample.GOTO);
    useStocks.StatusChange (useStocks.STATUS_UPDATE Sample.status_open);
    useStocks.StockChange (useStocks.DELETE "BBCA") ].

(** A local state in score order, without TLKM. *)
Definition sorted_rows : list Stock := [Sample.ASII; Sample.BBCA; Sample.GOTO].

End Sample2.

(** * Properties *)

(** ** The stable sort *)

Section sorting.
Context {A : Type}.
Variable compareFn : A → A → Z.

Lemma sort_insert_perm x l : sort_insert compareFn x l ≡ₚ x :: l.
Proof.
  induction l as [|y l IH]; simpl; [done|].
  destruct (compareFn x y <=? 0); [done|].
  rewrite IH. apply Permutation_swap.
Qed.

Lemma js_sort_perm l : js_sort compareFn l ≡ₚ l.
Proof.
  induction l as [|x l IH]; simpl; [done|].
  by rewrite sort_insert_perm, IH.
Qed.

Lemma js_sort_cons x l :
  js_sort compareFn (x :: l) = sort_insert compareFn x (js_sort compareFn l).
Proof. reflexivity. Qed.

(** From here on the comparator is the usual [key b - key a]. *)
Variable key : A → Z.
Hypothesis compare_key : ∀ a b, compareFn a b = key b - key a.

Lemma compare_le a b : (compareFn a b <=? 0) = true ↔ desc_by key a b.
Proof. rewrite compare_key, Z.leb_le. unfold desc_by. lia. Qed.

Lemma compare_gt a b : (compareFn a b <=? 0) = false → desc_by key b a.
Proof. rewrite compare_key, Z.leb_gt. unfold desc_by. lia. Qed.

#[local] Instance desc_by_trans : Transitive (desc_by key).
Proof. unfold desc_by. intros a b c ??. lia. Qed.

Lemma sort_insert_head x l :
  HdRel (desc_by key) x l → sort_insert compareFn x l = x :: l.
Proof.
  destruct 1 as [|y l Hxy]; simpl; [done|].
  apply compare_le in Hxy. by rewrite Hxy.
Qed.

Lemma sort_insert_sorted x l :
  Sorted (desc_by key) l → Sorted (desc_by key) (sort_insert compareFn x l).
Proof.
  induction 1 as [|y l Hl IH Hy]; simpl.
  - repeat constructor.
  - destruct (compareFn x y <=? 0) eqn:E.
    + apply compare_le in E. repeat constructor; done.
    + apply compare_gt in E. constructor; [done|].
      destruct Hy as [|z l Hyz]; simpl.
      * by constructor.
      * destruct (compareFn x z <=? 0); by constructor.
Qed.

Lemma js_sort_sorted l : Sorted (desc_by key) (js_sort compareFn l).
Proof.
  induction l as [|x l IH]; simpl; [constructor|].
  by apply sort_insert_sorted.
Qed.

Lemma js_sort_of_sorted l : Sorted (desc_by key) l → js_sort compareFn l = l.
Proof.
  induction 1 as [|x l Hl IH Hx]; [done|].
  rewrite js_sort_cons, IH. by apply sort_insert_head.
Qed.

Lemma js_sort_idem l :
  js_sort compareFn (js_sort compareFn l) = js_sort compareFn l.
Proof. apply js_sort_of_sorted, js_sort_sorted. Qed.

Section filtering.
Variable P : A → Prop.
Context `{!∀ x, Decision (P x)}.

Lemma HdRel_filter x l :
  Forall (desc_by key x) l → HdRel (desc_by key) x (filter P l).
Proof.
  intros Hall.
  assert (Forall (desc_by key x) (filter P l)) as Hf.
  { apply Forall_forall. intros y [_ Hy]%list_elem_of_filter.
    by eapply Forall_forall in Hall. }
  destruct Hf; by constructor.
Qed.

Lemma Sorted_filter l :
  Sorted (desc_by key) l → Sorted (desc_by key) (filter P l).
Proof.
  intros Hs%Sorted_StronglySorted; [|apply _].
  induction Hs as [|x l Hl IH Hx]; [constructor|].
  rewrite filter_cons. destruct (decide (P x)); [|done].
  constructor; [done|]. by apply HdRel_filter.
Qed.

Lemma filter_sort_insert x l :
  Sorted (desc_by key) l →
  filter P (sort_insert compareFn x l)
  = if decide (P x) then sort_insert compareFn x (filter P l)
    else filter P l.
Proof.
  intros Hs%Sorted_StronglySorted; [|apply _].
  induction Hs as [|y l Hl IH Hy]; simpl.
  { rewrite filter_cons, filter_nil. by destruct (decide (P x)). }
  destruct (compareFn x y <=? 0) eqn:E.
  - rewrite (filter_cons P x). destruct (decide (P x)); [|done].
    symmetry. apply sort_insert_head, HdRel_filter.
    apply compare_le in E. constructor; [done|].
    eapply Forall_impl; [exact Hy|]. intros z Hz. by etrans.
  - rewrite !(filter_cons P y). destruct (decide (P y)).
    + rewrite IH. destruct (decide (P x)); [|done].
      simpl. by rewrite E.
    + apply IH.
Qed.

Lemma filter_js_sort l :
  filter P (js_sort compareFn l) = js_sort compareFn (filter P l).
Proof.
  induction l as [|x l IH]; [done|].
  rewrite js_sort_cons, filter_sort_insert by apply js_sort_sorted.
  rewrite filter_cons. destruct (decide (P x)); [|done].
  by rewrite js_sort_cons, IH.
Qed.
End filtering.

Lemma Sorted_same_key k l :
  Forall (λ a, key a = k) l → Sorted (desc_by key) l.
Proof.
  induction 1 as [|x l Hx Hl IH]; constructor; [done|].
  destruct Hl as [|y l Hy _]; constructor. unfold desc_by. lia.
Qed.

(** Stability: the rows of any one key keep their relative order. *)
Lemma js_sort_stable k l :
  filter (λ a, key a = k) (js_sort compareFn l) = filter (λ a, key a = k) l.
Proof.
  rewrite filter_js_sort. apply js_sort_of_sorted, (Sorted_same_key k).
  apply Forall_forall. by intros y [Hy _]%list_elem_of_filter.
Qed.

End sorting.

(** ** The combined ranking *)

Lemma Qgtb_lt x y : Qgtb x y = true ↔ (y < x)%Q.
Proof.
  unfold Qgtb. rewrite negb_true_iff, <- not_true_iff_false, Qle_bool_iff.
  split; [apply Qnot_le_lt | apply Qlt_not_le].
Qed.

Lemma sortByRecommendation_key a b :
  useStocks.sortByRecommendation a b
  = useStocks.getRecommendationScore b - useStocks.getRecommendationScore a.
Proof. reflexivity. Qed.

Lemma byScore_key a b : useStocks.byScore a b = score b - score a.
Proof. reflexivity. Qed.

(** [getRecommendationScore] is the score plus the three fixed bonuses. *)
Lemma getRecommendationScore_bonuses s :
  useStocks.getRecommendationScore s
  = score s
    + (if decide (acc_dist_status s = accumulation) then 50 else 0)
    + (if decide (0 < net_foreign s) then 30 else 0)
    + (if Qlt_le_dec 0 (change_percent s) then 20 else 0).
Proof.
  unfold useStocks.getRecommendationScore.
  assert ((if Qgtb (change_percent s) 0 then 20 else 0)
          = if Qlt_le_dec 0 (change_percent s) then 20 else 0) as Hcp.
  { destruct (Qlt_le_dec 0 (change_percent s)) as [Hlt|Hle].
    - apply Qgtb_lt in Hlt. by rewrite Hlt.
    - destruct (Qgtb (change_percent s) 0) eqn:E; [|done].
      apply Qgtb_lt in E. by apply Qlt_not_le in E. }
  destruct (Qgtb (change_percent s) 0), (Qlt_le_dec 0 (change_percent s));
    try discriminate Hcp;
    destruct (acc_dist_status s); repeat case_decide; try congruence;
    destruct (Z.ltb_spec 0 (net_foreign s)); lia.
Qed.

(** C2, as worded, at a concrete input: two rows tie on the combined value
    and arrive as TLKM, ANTM; the sort leaves them in that order, which is
    not the lexical order of their symbols, and the same two rows arriving
    as ANTM, TLKM are ranked the other way round. *)
Lemma C2_ties_keep_arrival_order :
  useStocks.getRecommendationScore Sample.TLKM
  = useStocks.getRecommendationScore Sample.ANTM
  ∧ js_sort useStocks.sortByRecommendation [Sample.TLKM; Sample.ANTM]
    = [Sample.TLKM; Sample.ANTM]
  ∧ js_sort useStocks.sortByRecommendation [Sample.ANTM; Sample.TLKM]
    = [Sample.ANTM; Sample.TLKM]
  ∧ ¬ Sorted ranked_with_symbol_ties
        (js_sort useStocks.sortByRecommendation [Sample.TLKM; Sample.ANTM]).
Proof.
  split; [reflexivity|]. split; [reflexivity|]. split; [reflexivity|].
  intros [_ Hhd%HdRel_inv]%Sorted_inv.
  destruct Hhd as [Hlt|[_ Hleb]]; vm_compute in *; congruence.
Qed.

(** C2, amended: for every list of stocks the presentation ranking sorts
    descending by the combined value (score, plus 50 for accumulation, plus
    30 for a positive net foreign flow, plus 20 for a positive change); rows
    that tie on the combined value keep the order they had in the input (no
    fallback to the symbol); the result is a permutation of the input and
    re-sorting it yields the same sequence. *)
Theorem C2_ranking_stable_descending (l : list Stock) :
  (∀ s, useStocks.getRecommendationScore s
        = score s
          + (if decide (acc_dist_status s = accumulation) then 50 else 0)
          + (if decide (0 < net_foreign s) then 30 else 0)
          + (if Qlt_le_dec 0 (change_percent s) then 20 else 0))
  ∧ js_sort useStocks.sortByRecommendation l ≡ₚ l
  ∧ Sorted (desc_by useStocks.getRecommendationScore)
      (js_sort useStocks.sortByRecommendation l)
  ∧ (∀ k, filter (λ s, useStocks.getRecommendationScore s = k)
            (js_sort useStocks.sortByRecommendation l)
          = filter (λ s, useStocks.getRecommendationScore s = k) l)
  ∧ js_sort useStocks.sortByRecommendation
      (js_sort useStocks.sortByRecommendation l)
    = js_sort useStocks.sortByRecommendation l.
Proof.
  split; [apply getRecommendationScore_bonuses|].
  split; [apply js_sort_perm|].
  split; [apply js_sort_sorted, sortByRecommendation_key|].
  split.
  - intros k. apply js_sort_stable, sortByRecommendation_key.
  - eapply js_sort_idem, sortByRecommendation_key.
Qed.

(** ** The screened view *)

(** C3: in every state of the hook the screened collection is the rows of
    the full collection with [passed_screen = true], sorted by the combined
    ranking of the full collection: it is the exposed full collection
    filtered, it is computed from the [stocks] state alone, and it is in
    descending combined-ranking order. *)
Theorem C3_screened_is_filtered_full (st : useStocks.State) :
  useStocks.screenedStocks st
  = filter (λ s, passed_screen s = true) (useStocks.returnedStocks st)
  ∧ useStocks.screenedStocks st
    = js_sort useStocks.sortByRecommendation
        (filter (λ s, passed_screen s = true) (useStocks.stocks st))
  ∧ (∀ s, s ∈ useStocks.screenedStocks st
          ↔ s ∈ useStocks.stocks st ∧ passed_screen s = true)
  ∧ Sorted (desc_by useStocks.getRecommendationScore)
      (useStocks.screenedStocks st).
Proof.
  unfold useStocks.screenedStocks, useStocks.returnedStocks.
  split; [|split; [done|split]].
  - symmetry. eapply filter_js_sort, sortByRecommendation_key.
  - intros s. rewrite js_sort_perm, list_elem_of_filter. tauto.
  - apply js_sort_sorted, sortByRecommendation_key.
Qed.

(** ** The change handlers of the [stocks] channel *)

Lemma findIndex_Some newStock prev i :
  useStocks.findIndex newStock prev = Some i ↔
  ∃ old, prev !! i = Some old ∧ symbol old = symbol newStock
         ∧ ∀ j y, prev !! j = Some y → (j < i)%nat → symbol y ≠ symbol newStock.
Proof.
  unfold useStocks.findIndex. split.
  - destruct (list_find _ prev) as [[i' old]|] eqn:E; [|done].
    intros [= <-]. apply list_find_Some in E. by exists old.
  - intros (old & Hi & Hs & Hfirst).
    assert (list_find (λ s, symbol s = symbol newStock) prev = Some (i, old))
      as ->; [|done].
    by apply list_find_Some.
Qed.

Lemma findIndex_None newStock prev :
  useStocks.findIndex newStock prev = None ↔
  Forall (λ s, symbol s ≠ symbol newStock) prev.
Proof.
  unfold useStocks.findIndex. rewrite fmap_None. apply list_find_None.
Qed.

Lemma reconcile_nil l : reconcile l [] = l.
Proof. reflexivity. Qed.

Lemma reconcile_cons l p ps :
  reconcile l (p :: ps) = reconcile (useStocks.stockUpdater p l) ps.
Proof. by destruct p. Qed.

(** Replacing a row by one of the same symbol keeps the column of symbols. *)
Lemma symbols_replace newStock (prev : list Stock) (i : nat) old :
  prev !! i = Some old → symbol old = symbol newStock →
  symbol <$> <[i := newStock]> prev = symbol <$> prev.
Proof.
  intros Hi Hs. rewrite list_fmap_insert. apply list_insert_id.
  by rewrite list_lookup_fmap, Hi, <- Hs.
Qed.

Lemma symbols_upsert newStock prev :
  symbol <$> useStocks.upsertStock newStock prev
  ≡ₚ match useStocks.findIndex newStock prev with
     | Some _ => symbol <$> prev
     | None => symbol newStock :: (symbol <$> prev)
     end.
Proof.
  unfold useStocks.upsertStock.
  destruct (useStocks.findIndex newStock prev) as [i|] eqn:E; simpl.
  - apply findIndex_Some in E as (old & Hi & Hs & _).
    by rewrite js_sort_perm, (symbols_replace _ _ _ old).
  - rewrite js_sort_perm, fmap_app. simpl.
    by rewrite <- Permutation_cons_append.
Qed.

Lemma NoDup_upsert newStock prev :
  NoDup (symbol <$> prev) →
  NoDup (symbol <$> useStocks.upsertStock newStock prev).
Proof.
  intros Hnd. rewrite symbols_upsert.
  destruct (useStocks.findIndex newStock prev) eqn:E; [done|].
  apply findIndex_None in E. apply NoDup_cons. split; [|done].
  intros (s & Hs & Hin)%list_elem_of_fmap.
  eapply Forall_forall in E; [|exact Hin]. by apply E.
Qed.

Lemma NoDup_delete k prev :
  NoDup (symbol <$> prev) →
  NoDup (symbol <$> useStocks.deleteStock k prev).
Proof.
  unfold useStocks.deleteStock.
  induction prev as [|s l IH]; [done|].
  rewrite fmap_cons, NoDup_cons, filter_cons. intros [Hs Hl].
  destruct (decide (symbol s ≠ k)); [|by apply IH].
  rewrite fmap_cons, NoDup_cons. split; [|by apply IH].
  intros (s' & Hs' & [_ Hin]%list_elem_of_filter)%list_elem_of_fmap.
  apply Hs, list_elem_of_fmap. by exists s'.
Qed.

Lemma NoDup_stockUpdater p l :
  NoDup (symbol <$> l) → NoDup (symbol <$> useStocks.stockUpdater p l).
Proof.
  destruct p; simpl; auto using NoDup_upsert, NoDup_delete.
Qed.

Lemma NoDup_reconcile ps l :
  NoDup (symbol <$> l) → NoDup (symbol <$> reconcile l ps).
Proof.
  revert l. induction ps as [|p ps IH]; intros l Hnd; [done|].
  rewrite reconcile_cons. by apply IH, NoDup_stockUpdater.
Qed.

(** ** The list state as a mapping keyed by symbol *)

Lemma of_list_keys (l : list Stock) :
  ((λ s, (symbol s, s)) <$> l).*1 = symbol <$> l.
Proof. by rewrite <- list_fmap_compose. Qed.

Lemma of_list_cons s l :
  Keyed.of_list (s :: l) = <[symbol s := s]> (Keyed.of_list l).
Proof. reflexivity. Qed.

Lemma of_list_perm (l1 l2 : list Stock) :
  NoDup (symbol <$> l1) → l1 ≡ₚ l2 → Keyed.of_list l1 = Keyed.of_list l2.
Proof.
  intros Hnd Hp. unfold Keyed.of_list.
  apply list_to_map_proper; [by rewrite of_list_keys|by rewrite Hp].
Qed.

Lemma of_list_lookup (l : list Stock) k s :
  NoDup (symbol <$> l) →
  Keyed.of_list l !! k = Some s ↔ s ∈ l ∧ symbol s = k.
Proof.
  intros Hnd. unfold Keyed.of_list.
  rewrite <- elem_of_list_to_map by by rewrite of_list_keys.
  rewrite list_elem_of_fmap. split.
  - intros (s' & [= -> ->] & Hin). done.
  - intros [Hin <-]. by exists s.
Qed.

Lemma of_list_upsert newStock prev :
  NoDup (symbol <$> prev) →
  Keyed.of_list (useStocks.upsertStock newStock prev)
  = <[symbol newStock := newStock]> (Keyed.of_list prev).
Proof.
  intros Hnd. pose proof (NoDup_upsert newStock prev Hnd) as Hnd'.
  unfold useStocks.upsertStock in *.
  destruct (useStocks.findIndex newStock prev) as [i|] eqn:E; simpl in *.
  - apply findIndex_Some in E as (old & Hi & Hs & _).
    set (rest := take i prev ++ drop (S i) prev).
    assert (prev ≡ₚ old :: rest) as Hprev.
    { rewrite <- (take_drop_middle prev i old Hi) at 1.
      by rewrite <- Permutation_middle. }
    assert (js_sort useStocks.byScore (<[i := newStock]> prev)
            ≡ₚ newStock :: rest) as Hnew.
    { rewrite js_sort_perm, insert_take_drop by by eapply lookup_lt_Some.
      by rewrite <- Permutation_middle. }
    rewrite (of_list_perm _ _ Hnd' Hnew), (of_list_perm _ _ Hnd Hprev).
    by rewrite !of_list_cons, Hs, insert_insert_eq.
  - rewrite (of_list_perm _ (newStock :: prev) Hnd'); [done|].
    by rewrite js_sort_perm, <- Permutation_cons_append.
Qed.

Lemma of_list_delete k prev :
  Keyed.of_list (useStocks.deleteStock k prev) = delete k (Keyed.of_list prev).
Proof.
  unfold useStocks.deleteStock.
  induction prev as [|s l IH].
  - symmetry. apply delete_empty.
  - rewrite filter_cons, of_list_cons.
    destruct (decide (symbol s ≠ k)) as [Hne|Heq%dec_stable].
    + by rewrite of_list_cons, IH, delete_insert_ne.
    + by rewrite IH, <- Heq, delete_insert_eq.
Qed.

Lemma of_list_stockUpdater p l :
  NoDup (symbol <$> l) →
  Keyed.of_list (useStocks.stockUpdater p l) = Keyed.apply (Keyed.of_list l) p.
Proof.
  destruct p; simpl; auto using of_list_upsert, of_list_delete.
Qed.

Lemma of_list_reconcile ps l :
  NoDup (symbol <$> l) →
  Keyed.of_list (reconcile l ps) = Keyed.apply_all (Keyed.of_list l) ps.
Proof.
  revert l. induction ps as [|p ps IH]; intros l Hnd; [done|].
  rewrite reconcile_cons, IH by by apply NoDup_stockUpdater.
  simpl. by rewrite of_list_stockUpdater.
Qed.

Lemma length_upsert newStock prev :
  length (useStocks.upsertStock newStock prev)
  = match useStocks.findIndex newStock prev with
    | Some _ => length prev
    | None => S (length prev)
    end.
Proof.
  unfold useStocks.upsertStock.
  destruct (useStocks.findIndex newStock prev);
    rewrite js_sort_perm; [apply length_insert|].
  rewrite length_app. simpl. lia.
Qed.

(** C4, as worded, at a concrete input: the local state holds ASII
    (combined ranking 60) and an insert event brings BBCA (score 50,
    combined ranking 150).  The handler leaves ASII first: the stored
    collection is in score order, not in combined-ranking order. *)
Lemma C4_handler_sorts_by_score :
  useStocks.upsertStock Sample.BBCA [Sample.ASII] = [Sample.ASII; Sample.BBCA]
  ∧ js_sort useStocks.sortByRecommendation ([Sample.ASII] ++ [Sample.BBCA])
    = [Sample.BBCA; Sample.ASII]
  ∧ ¬ Sorted (desc_by useStocks.getRecommendationScore)
        (useStocks.upsertStock Sample.BBCA [Sample.ASII]).
Proof.
  split; [reflexivity|]. split; [reflexivity|].
  intros [_ Hhd%HdRel_inv]%Sorted_inv.
  unfold desc_by in Hhd. vm_compute in Hhd. by apply Hhd.
Qed.

(** C4, amended: for every local state and every insert or update event the
    handler replaces the row in place at the first index holding the event's
    symbol, and appends the row when no row holds it; after either case the
    stored collection is re-sorted by score descending (not by the combined
    ranking), and the collection the hook exposes is that list sorted by the
    combined ranking, so the exposed order is descending in the combined
    value. *)
Theorem C4_upsert_then_sort_by_score (newStock : Stock) (st : useStocks.State) :
  useStocks.stocks (useStocks.onStockChange (useStocks.INSERT newStock) st)
  = useStocks.upsertStock newStock (useStocks.stocks st)
  ∧ useStocks.stocks (useStocks.onStockChange (useStocks.UPDATE newStock) st)
    = useStocks.upsertStock newStock (useStocks.stocks st)
  ∧ (∀ (i : nat) old,
       useStocks.stocks st !! i = Some old →
       symbol old = symbol newStock →
       (∀ (j : nat) y, useStocks.stocks st !! j = Some y → (j < i)%nat →
                       symbol y ≠ symbol newStock) →
       useStocks.upsertStock newStock (useStocks.stocks st)
       = js_sort useStocks.byScore (<[i := newStock]> (useStocks.stocks st)))
  ∧ ((∀ s, s ∈ useStocks.stocks st → symbol s ≠ symbol newStock) →
       useStocks.upsertStock newStock (useStocks.stocks st)
       = js_sort useStocks.byScore (useStocks.stocks st ++ [newStock]))
  ∧ Sorted (desc_by score)
      (useStocks.upsertStock newStock (useStocks.stocks st))
  ∧ useStocks.returnedStocks
      (useStocks.onStockChange (useStocks.UPDATE newStock) st)
    ≡ₚ useStocks.upsertStock newStock (useStocks.stocks st)
  ∧ Sorted (desc_by useStocks.getRecommendationScore)
      (useStocks.returnedStocks
         (useStocks.onStockChange (useStocks.UPDATE newStock) st)).
Proof.
  split; [done|]. split; [done|]. split; [|split; [|split; [|split]]].
  - intros i old Hi Hs Hfirst.
    assert (useStocks.findIndex newStock (useStocks.stocks st) = Some i) as E.
    { apply findIndex_Some. by exists old. }
    unfold useStocks.upsertStock. by rewrite E.
  - intros Hfresh.
    assert (useStocks.findIndex newStock (useStocks.stocks st) = None) as E.
    { by apply findIndex_None, Forall_forall. }
    unfold useStocks.upsertStock. by rewrite E.
  - unfold useStocks.upsertStock.
    destruct (useStocks.findIndex _ _); apply js_sort_sorted, byScore_key.
  - apply js_sort_perm.
  - apply js_sort_sorted, sortByRecommendation_key.
Qed.

(** ** Reconciliation *)

(** C5: for every initial fetch of distinct symbols and every finite
    sequence of insert, update and delete events, the local state the
    handlers reach holds exactly the rows of the initial fetch with the
    events folded in arrival order: read as a mapping keyed by symbol it is
    the fetched mapping after writing each upserted row under its symbol and
    removing each deleted symbol, in event order. *)
Theorem C5_events_fold_in_order (fetch : list Stock)
    (ps : list useStocks.StockPayload) :
  NoDup (symbol <$> fetch) →
  Keyed.of_list (reconcile fetch ps)
  = Keyed.apply_all (Keyed.of_list fetch) ps
  ∧ NoDup (symbol <$> reconcile fetch ps)
  ∧ ∀ k s, Keyed.apply_all (Keyed.of_list fetch) ps !! k = Some s
           ↔ s ∈ reconcile fetch ps ∧ symbol s = k.
Proof.
  intros Hnd. pose proof (NoDup_reconcile ps fetch Hnd) as Hnd'.
  split; [by apply of_list_reconcile|]. split; [done|].
  intros k s. rewrite <- of_list_reconcile by done. by apply of_list_lookup.
Qed.

Lemma C5_events_fold_in_order_witness :
  NoDup (symbol <$> Sample.fetched)
  ∧ Keyed.of_list (reconcile Sample.fetched Sample.events)
    = Keyed.apply_all (Keyed.of_list Sample.fetched) Sample.events.
Proof.
  assert (NoDup (symbol <$> Sample.fetched)) as Hnd.
  { apply (bool_decide_unpack _). vm_compute. reflexivity. }
  split; [exact Hnd|].
  exact (proj1 (C5_events_fold_in_order Sample.fetched Sample.events Hnd)).
Defined.

(** C9: if the local state holds at most one row per symbol, it still does
    after any sequence of insert, update and delete events: an event for a
    symbol already present replaces its row (the collection keeps its
    length), and an event for an absent symbol adds exactly one row. *)
Theorem C9_one_row_per_symbol (l : list Stock)
    (ps : list useStocks.StockPayload) :
  NoDup (symbol <$> l) →
  NoDup (symbol <$> reconcile l ps)
  ∧ ∀ newStock,
      NoDup (symbol <$> useStocks.upsertStock newStock (reconcile l ps))
      ∧ length (useStocks.upsertStock newStock (reconcile l ps))
        = if decide (symbol newStock ∈ symbol <$> reconcile l ps)
          then length (reconcile l ps)
          else S (length (reconcile l ps)).
Proof.
  intros Hnd%(NoDup_reconcile ps). split; [done|].
  intros newStock. split; [by apply NoDup_upsert|].
  rewrite length_upsert.
  destruct (useStocks.findIndex newStock (reconcile l ps)) as [i|] eqn:E.
  - apply findIndex_Some in E as (old & Hi & Hs & _).
    rewrite decide_True; [done|].
    apply list_elem_of_fmap. exists old. split; [done|].
    by eapply list_elem_of_lookup_2.
  - apply findIndex_None in E. rewrite decide_False; [done|].
    intros (s & Hs & Hin)%list_elem_of_fmap.
    eapply Forall_forall in E; [|exact Hin]. by apply E.
Qed.

Lemma C9_one_row_per_symbol_witness :
  NoDup (symbol <$> Sample.fetched)
  ∧ NoDup (symbol <$> reconcile Sample.fetched Sample.events).
Proof.
  assert (NoDup (symbol <$> Sample.fetched)) as Hnd.
  { apply (bool_decide_unpack _). vm_compute. reflexivity. }
  split; [exact Hnd|].
  exact (proj1 (C9_one_row_per_symbol Sample.fetched Sample.events Hnd)).
Defined.

Example reconcile_sample :
  reconcile Sample.fetched Sample.events
  = [Sample.ASII'; Sample.TLKM; Sample.BBCA].
Proof. reflexivity. Qed.

(** ** Server-side order against the client's ranking *)

Lemma Sorted_on_members {A} (R R' : relation A) (l : list A) :
  (∀ a b, a ∈ l → b ∈ l → R a b → R' a b) → Sorted R l → Sorted R' l.
Proof.
  intros Himp Hs. induction Hs as [|x l Hl IH Hx]; [constructor|].
  constructor.
  - apply IH. intros a b Ha Hb. apply Himp; by right.
  - destruct Hx as [|y l Hxy]; constructor.
    apply Himp; [by left|by right; left|done].
Qed.

Lemma score_desc_symbol_asc_desc a b :
  Schema.score_desc_symbol_asc a b → desc_by score a b.
Proof. unfold desc_by. intros [?|[? _]]; lia. Qed.

(** Rows that all earn the same bonus rank alike by score and by the
    combined value. *)
Lemma flat_bonus_sorted c l :
  Forall (λ s, bonus s = c) l →
  Sorted (desc_by score) l →
  Sorted (desc_by useStocks.getRecommendationScore) l.
Proof.
  intros Hflat. apply Sorted_on_members. intros a b Ha Hb.
  pose proof (proj1 (Forall_forall _ _) Hflat a Ha) as Hca.
  pose proof (proj1 (Forall_forall _ _) Hflat b Hb) as Hcb.
  unfold bonus, desc_by in *. lia.
Qed.

(** C1, as worded, at a concrete input: the table holds BBCA (score 50,
    combined ranking 150) and ASII (score 60, combined ranking 60).  Both
    ordered reads deliver ASII first; the client's ranking of the delivered
    rows puts BBCA first. *)
Lemma C1_server_order_is_not_client_order :
  Schema.order_by_score_desc [Sample.BBCA; Sample.ASII]
    [Sample.ASII; Sample.BBCA]
  ∧ Schema.screened_stocks [Sample.BBCA; Sample.ASII]
      [Sample.ASII; Sample.BBCA]
  ∧ useStocks.returnedStocks
      (useStocks.fetchStocks
         {| useStocks.stocksData := Some [Sample.ASII; Sample.BBCA];
            useStocks.stocksError := None;
            useStocks.statusData := None |}
         useStocks.init)
    = [Sample.BBCA; Sample.ASII]
  ∧ js_sort useStocks.sortByRecommendation [Sample.ASII; Sample.BBCA]
    ≠ [Sample.ASII; Sample.BBCA].
Proof.
  split; [|split; [|split]].
  - split; [apply perm_swap|].
    repeat constructor. unfold desc_by. simpl. lia.
  - split; [apply perm_swap|].
    repeat first [apply Sorted_cons | apply Sorted_nil | apply HdRel_cons
                 | apply HdRel_nil].
    left. simpl. lia.
  - reflexivity.
  - intros H. vm_compute in H. discriminate H.
Qed.

(** C1, amended: the server-side orderings rank by score alone (the fetch
    by score descending, the [screened_stocks] view by score descending and
    then symbol ascending), not by the combined ranking of the client's
    [sortByRecommendation]; the server-delivered order equals the
    client-computed order for every set of rows that all earn the same
    bonus, for which the client's ranking leaves the delivered sequence as
    it is. *)
Theorem C1_orders_agree_on_flat_bonus (rows out : list Stock) (c : Z)
    (status : option MS.MarketStatus) (st : useStocks.State) :
  Forall (λ s, bonus s = c) rows →
  Schema.order_by_score_desc rows out ∨ Schema.screened_stocks rows out →
  js_sort useStocks.sortByRecommendation out = out
  ∧ useStocks.returnedStocks
      (useStocks.fetchStocks
         {| useStocks.stocksData := Some out;
            useStocks.stocksError := None;
            useStocks.statusData := status |}
         st)
    = out.
Proof.
  intros Hflat Hread.
  assert (js_sort useStocks.sortByRecommendation out = out) as Hid; [|done].
  eapply js_sort_of_sorted; [apply sortByRecommendation_key|].
  destruct Hread as [[Hperm Hsorted]|[Hperm Hsorted]].
  - apply (flat_bonus_sorted c); [by rewrite Hperm|done].
  - apply (flat_bonus_sorted c).
    + apply Forall_forall. intros s Hs. rewrite Hperm in Hs.
      apply list_elem_of_filter in Hs as [_ Hs].
      by eapply Forall_forall in Hflat.
    + eapply Sorted_on_members; [|exact Hsorted].
      intros a b _ _. apply score_desc_symbol_asc_desc.
Qed.

Lemma C1_orders_agree_on_flat_bonus_witness :
  Forall (λ s, bonus s = 0) Sample.plain_rows
  ∧ Schema.order_by_score_desc Sample.plain_rows Sample.plain_delivered
  ∧ js_sort useStocks.sortByRecommendation Sample.plain_delivered
    = Sample.plain_delivered.
Proof.
  assert (Forall (λ s, bonus s = 0) Sample.plain_rows) as Hflat.
  { repeat constructor. }
  assert (Schema.order_by_score_desc Sample.plain_rows Sample.plain_delivered)
    as Hread.
  { split; [apply perm_swap|].
    repeat constructor. unfold desc_by. simpl. lia. }
  split; [exact Hflat|]. split; [exact Hread|].
  exact (proj1 (C1_orders_agree_on_flat_bonus Sample.plain_rows
                  Sample.plain_delivered 0 None useStocks.init Hflat
                  (or_introl Hread))).
Defined.

(** ** Screening and scoring *)

Example ABCD_passes :
  Screening.compute_score Screening.defaults (Sample.ABCD 500) = 100
  ∧ Screening.compute_passed Screening.defaults (Sample.ABCD 500) = true.
Proof. split; reflexivity. Qed.

Example ABCD_below_band :
  Screening.compute_score Screening.defaults (Sample.ABCD 50) = 80
  ∧ Screening.compute_passed Screening.defaults (Sample.ABCD 50) = false.
Proof. split; reflexivity. Qed.

Lemma compute_score_passed_weight c s :
  Screening.compute_score c s = Screening.passed_weight c s.
Proof.
  unfold Screening.compute_score, Screening.passed_weight, Screening.criteria.
  rewrite !filter_cons, filter_nil. simpl.
  destruct (Screening.price_band c s), (Screening.liquidity c s),
    (Screening.volatile c s), (Screening.momentum c s),
    (Screening.tight_spread c s); simpl; lia.
Qed.

(** C6: for every snapshot, under the default thresholds and weights, the
    score lies between 0 and 100 and is the sum of the weights (20, 25, 20,
    15, 20) of exactly the criteria that pass, a failing criterion adding 0;
    and [passed_screen] is true if and only if all five criteria hold. *)
Theorem C6_score_bounds_and_pass (s : Stock) :
  0 ≤ Screening.compute_score Screening.defaults s ≤ 100
  ∧ Screening.compute_score Screening.defaults s
    = Screening.passed_weight Screening.defaults s
  ∧ Screening.compute_score Screening.defaults s
    = (if Screening.price_band Screening.defaults s then 20 else 0)
      + (if Screening.liquidity Screening.defaults s then 25 else 0)
      + (if Screening.volatile Screening.defaults s then 20 else 0)
      + (if Screening.momentum Screening.defaults s then 15 else 0)
      + (if Screening.tight_spread Screening.defaults s then 20 else 0)
  ∧ (Screening.compute_passed Screening.defaults s = true
     ↔ ((100 <= price s)%Q ∧ (price s <= 10000)%Q)
       ∧ 1000000 < volume s
       ∧ (2 < volatility s)%Q
       ∧ ((1 # 2) < change_percent s)%Q
       ∧ (spread s < 2)%Q).
Proof.
  split; [|split; [apply compute_score_passed_weight|split]].
  - unfold Screening.compute_score.
    destruct (Screening.price_band _ s), (Screening.liquidity _ s),
      (Screening.volatile _ s), (Screening.momentum _ s),
      (Screening.tight_spread _ s); simpl; lia.
  - unfold Screening.compute_score.
    destruct (Screening.price_band _ s), (Screening.liquidity _ s),
      (Screening.volatile _ s), (Screening.momentum _ s),
      (Screening.tight_spread _ s); simpl; lia.
  - unfold Screening.compute_passed, Screening.price_band, Screening.liquidity,
      Screening.volatile, Screening.momentum, Screening.tight_spread.
    rewrite !andb_true_iff, !Qle_bool_iff, !Qgtb_lt, Z.ltb_lt. simpl. tauto.
Qed.

(** ** The singleton status record *)

Lemma publish_on_singleton r r' :
  MS.id r = 1 →
  default [r] (Schema.publish_status r' [r])
  = [if decide (MS.id r' = 1) then r' else r].
Proof.
  intros Hr. unfold Schema.publish_status, Schema.single_row, Schema.key_free.
  simpl. rewrite Hr.
  destruct (decide (MS.id r' = 1)) as [->|Hne]; simpl; [done|].
  by apply Z.eqb_neq in Hne as ->.
Qed.

Lemma publish_all_singleton ws r :
  MS.id r = 1 →
  Schema.publish_all [r] ws
  = [default r (last (filter (λ w, MS.id w = 1) ws))].
Proof.
  revert r. induction ws as [|w ws IH]; intros r Hr; [done|].
  unfold Schema.publish_all in *. simpl foldl.
  rewrite publish_on_singleton by done. rewrite filter_cons.
  destruct (decide (MS.id w = 1)) as [Hw|Hw].
  - rewrite IH by done. rewrite last_cons.
    by destruct (last (filter _ ws)).
  - by rewrite IH.
Qed.

(** C7: the [market_status] table holds exactly one record at any time:
    after the schema script and any sequence of publisher writes it is a
    single row with [id = 1], namely the last accepted write taken whole or
    else the seeded default, and the constraints reject the insertion of any
    further row; on the client a status UPDATE event replaces the whole
    record by the event's row and any other status event leaves it as it
    was, so the record read is always one row in full. *)
Theorem C7_single_status_record (now : string) (writes : list MS.MarketStatus)
    (extra : MS.MarketStatus) (p : useStocks.StatusPayload)
    (st : useStocks.State) :
  Schema.publish_all (Schema.market_status_init now) writes
  = [default (Schema.default_status now)
       (last (filter (λ w, MS.id w = 1) writes))]
  ∧ length (Schema.publish_all (Schema.market_status_init now) writes) = 1%nat
  ∧ Schema.insert extra
      (Schema.publish_all (Schema.market_status_init now) writes) = None
  ∧ useStocks.marketStatus (useStocks.onStatusChange p st)
    = match p with
      | useStocks.STATUS_UPDATE new => Some new
      | _ => useStocks.marketStatus st
      end
  ∧ useStocks.stocks (useStocks.onStatusChange p st) = useStocks.stocks st.
Proof.
  assert (Schema.market_status_init now = [Schema.default_status now]) as ->
    by reflexivity.
  rewrite publish_all_singleton by reflexivity.
  split; [done|]. split; [done|]. split; [|by destruct p].
  unfold Schema.insert, Schema.single_row, Schema.key_free. simpl.
  assert (MS.id (default (Schema.default_status now)
                   (last (filter (λ w, MS.id w = 1) writes))) = 1) as ->.
  { destruct (last _) as [w|] eqn:E; [|done]. simpl.
    apply last_Some_elem_of, list_elem_of_filter in E. by destruct E. }
  destruct (Z.eqb_spec (MS.id extra) 1) as [->|]; done.
Qed.

Example second_status_row_rejected :
  Schema.insert Sample.status_second (Schema.market_status_init "t0") = None
  ∧ Schema.insert Sample.status_open (Schema.market_status_init "t0") = None
  ∧ Schema.publish_all (Schema.market_status_init "t0")
      [Sample.status_second; Sample.status_open]
    = [Sample.status_open].
Proof. repeat split. Qed.

(** ** Column defaults *)



Example decimal_is_rounded_or_rejected :
  ((λ row, row Schema.Col.change_percent)
     <$> Schema.insert_numeric (Sample.change_percent_given (1005 # 1000)))
  = Some (Some (101 # 100)%Q)
  ∧ Schema.coerce (Schema.Decimal2 8) 1000000 = None
  ∧ Schema.coerce (Schema.Decimal2 8) (99999999 # 100) = Some (99999999 # 100)%Q
  ∧ Schema.coerce Schema.Integer (5 # 2) = Some 3%Q.
Proof. repeat split. Qed.

Example nothing_supplied_stores_defaults :
  ((λ row, (row Schema.Col.volume_spike, row Schema.Col.rsi,
            row Schema.Col.price))
     <$> Schema.insert_numeric Sample.nothing_supplied)
  = Some (Some 100%Q, Some 50%Q, Some 0%Q).
Proof. reflexivity. Qed.



(** ** The pass-rate card *)

Example passRate_samples :
  StatsCards.passRate 0 0 = StatsCards.Number 0
  ∧ StatsCards.passRate 3 1 = StatsCards.Fixed1 333
  ∧ StatsCards.passRate 8 1 = StatsCards.Fixed1 125
  ∧ StatsCards.div 0 0 = StatsCards.NaN.
Proof. repeat split. Qed.

(** C10: the pass rate divides the screened count by the total count only
    when [totalStocks > 0], where the quotient is a finite number, and
    renders the number 0 otherwise (in particular when the total is 0); for
    every pair of counts the rendered value is a one-decimal figure or 0,
    never NaN and never an infinity. *)
Theorem C10_pass_rate_never_nan (totalStocks screenedStocks : Z) :
  StatsCards.passRate totalStocks screenedStocks
  = (if 0 <? totalStocks
     then StatsCards.Fixed1
            (StatsCards.nearest_tenth
               (inject_Z screenedStocks / inject_Z totalStocks * 100)%Q)
     else StatsCards.Number 0)
  ∧ (if 0 <? totalStocks
     then StatsCards.div screenedStocks totalStocks
          = StatsCards.Finite (inject_Z screenedStocks / inject_Z totalStocks)%Q
     else StatsCards.passRate totalStocks screenedStocks = StatsCards.Number 0)
  ∧ StatsCards.passRate 0 screenedStocks = StatsCards.Number 0
  ∧ StatsCards.passRate totalStocks screenedStocks ≠ StatsCards.TextNaN
  ∧ ∀ negative,
      StatsCards.passRate totalStocks screenedStocks
      ≠ StatsCards.TextInfinity negative.
Proof.
  unfold StatsCards.passRate, StatsCards.div.
  destruct (Z.ltb_spec 0 totalStocks) as [Hpos|Hle].
  - assert ((totalStocks =? 0) = false) as -> by (apply Z.eqb_neq; lia).
    simpl. repeat split; congruence.
  - repeat split; congruence.
Qed.

(** * Further properties of the code *)

(** ** The handlers, row by row *)

Lemma filter_all {A} (P : A → Prop) `{!∀ x, Decision (P x)} (l : list A) :
  Forall P l → filter P l = l.
Proof.
  induction 1 as [|x l Hx Hl IH]; [done|].
  by rewrite filter_cons_True, IH.
Qed.

Lemma elem_of_deleteStock k l r :
  r ∈ useStocks.deleteStock k l ↔ r ∈ l ∧ symbol r ≠ k.
Proof. unfold useStocks.deleteStock. rewrite list_elem_of_filter. tauto. Qed.

Lemma deleteStock_absent k l :
  k ∉ (symbol <$> l) → useStocks.deleteStock k l = l.
Proof.
  intros Hk. apply filter_all, Forall_forall. intros s Hs Heq.
  apply Hk, list_elem_of_fmap. by exists s.
Qed.

Lemma deleteStock_gone k l : k ∉ (symbol <$> useStocks.deleteStock k l).
Proof.
  intros (s & -> & Hs)%list_elem_of_fmap.
  apply elem_of_deleteStock in Hs. by destruct Hs.
Qed.

(** With one row per symbol, the rows after an upsert are the new row and
    the old rows of every other symbol. *)
Lemma elem_of_upsertStock newStock prev r :
  NoDup (symbol <$> prev) →
  r ∈ useStocks.upsertStock newStock prev
  ↔ r = newStock ∨ (r ∈ prev ∧ symbol r ≠ symbol newStock).
Proof.
  intros Hnd. pose proof (NoDup_upsert newStock prev Hnd) as Hnd'.
  transitivity (Keyed.of_list (useStocks.upsertStock newStock prev)
                  !! symbol r = Some r).
  { rewrite of_list_lookup by done. tauto. }
  rewrite of_list_upsert by done.
  destruct (decide (symbol newStock = symbol r)) as [E|E].
  - rewrite E, lookup_insert_eq. split.
    + intros [= ->]. by left.
    + intros [->|[_ Hne]]; [done|]. by destruct Hne.
  - rewrite lookup_insert_ne, of_list_lookup by done. split.
    + intros [Hin _]. right. split; [done|]. congruence.
    + intros [->|[Hin _]]; [by destruct E|done].
Qed.

(** X1: an insert or update event leaves exactly the event's row under its
    symbol and keeps the rows of every other symbol; delivering the same
    event a second time changes nothing. *)
Theorem upsert_membership_and_redelivery (newStock : Stock)
    (prev : list Stock) :
  NoDup (symbol <$> prev) →
  (∀ r, r ∈ useStocks.upsertStock newStock prev
        ↔ r = newStock ∨ (r ∈ prev ∧ symbol r ≠ symbol newStock))
  ∧ useStocks.upsertStock newStock (useStocks.upsertStock newStock prev)
    = useStocks.upsertStock newStock prev.
Proof.
  intros Hnd. split; [intros r; by apply elem_of_upsertStock|].
  set (u := useStocks.upsertStock newStock prev).
  assert (Sorted (desc_by score) u) as Hsorted.
  { unfold u, useStocks.upsertStock.
    destruct (useStocks.findIndex _ _); apply js_sort_sorted, byScore_key. }
  assert (newStock ∈ u) as Hin by (apply elem_of_upsertStock; auto).
  unfold useStocks.upsertStock at 1.
  destruct (useStocks.findIndex newStock u) as [i|] eqn:E.
  - apply findIndex_Some in E as (old & Hi & Hs & _).
    assert (old = newStock) as ->.
    { apply list_elem_of_lookup_2 in Hi.
      apply (elem_of_upsertStock newStock prev old Hnd) in Hi.
      destruct Hi as [->|[_ Hne]]; done. }
    rewrite list_insert_id by done.
    by apply (js_sort_of_sorted _ score byScore_key).
  - apply findIndex_None in E.
    eapply Forall_forall in E; [|exact Hin]. done.
Qed.

Lemma upsert_membership_and_redelivery_witness :
  NoDup (symbol <$> Sample.fetched)
  ∧ useStocks.upsertStock Sample.ASII'
      (useStocks.upsertStock Sample.ASII' Sample.fetched)
    = useStocks.upsertStock Sample.ASII' Sample.fetched.
Proof.
  assert (NoDup (symbol <$> Sample.fetched)) as Hnd.
  { apply (bool_decide_unpack _). vm_compute. reflexivity. }
  split; [exact Hnd|].
  exact (proj2 (upsert_membership_and_redelivery Sample.ASII' Sample.fetched
                  Hnd)).
Defined.

(** X2: a delete event removes every row of its symbol and nothing else,
    keeps the remaining rows in their order, is the identity when the symbol
    is absent, and is idempotent. *)
Theorem delete_removes_only_the_symbol (k : string) (l : list Stock) :
  (∀ r, r ∈ useStocks.deleteStock k l ↔ r ∈ l ∧ symbol r ≠ k)
  ∧ (k ∉ (symbol <$> useStocks.deleteStock k l))
  ∧ useStocks.deleteStock k l `sublist_of` l
  ∧ (k ∉ (symbol <$> l) → useStocks.deleteStock k l = l)
  ∧ useStocks.deleteStock k (useStocks.deleteStock k l)
    = useStocks.deleteStock k l.
Proof.
  split; [intros r; apply elem_of_deleteStock|].
  split; [apply deleteStock_gone|].
  split; [apply sublist_filter|].
  split; [apply deleteStock_absent|].
  apply deleteStock_absent, deleteStock_gone.
Qed.

(** X3: on a state in score order that does not hold the symbol, an insert
    event followed by a delete event of the same symbol gives back the state
    as it was. *)
Theorem insert_then_delete_restores (newStock : Stock) (l : list Stock) :
  Sorted (desc_by score) l →
  symbol newStock ∉ (symbol <$> l) →
  useStocks.deleteStock (symbol newStock) (useStocks.upsertStock newStock l)
  = l.
Proof.
  intros Hsorted Hfresh.
  assert (useStocks.findIndex newStock l = None) as E.
  { apply findIndex_None, Forall_forall. intros s Hs Heq.
    apply Hfresh, list_elem_of_fmap. by exists s. }
  unfold useStocks.upsertStock, useStocks.deleteStock. rewrite E.
  rewrite (filter_js_sort _ score byScore_key), filter_app.
  rewrite filter_cons_False, filter_nil, app_nil_r by (by intros H; apply H).
  fold (useStocks.deleteStock (symbol newStock) l).
  rewrite deleteStock_absent by done.
  by apply (js_sort_of_sorted _ score byScore_key).
Qed.

Lemma insert_then_delete_restores_witness :
  Sorted (desc_by score) Sample2.sorted_rows
  ∧ (symbol Sample.TLKM ∉ (symbol <$> Sample2.sorted_rows))
  ∧ useStocks.deleteStock (symbol Sample.TLKM)
      (useStocks.upsertStock Sample.TLKM Sample2.sorted_rows)
    = Sample2.sorted_rows.
Proof.
  assert (Sorted (desc_by score) Sample2.sorted_rows) as Hsorted.
  { repeat first [apply Sorted_cons | apply Sorted_nil | apply HdRel_cons
                 | apply HdRel_nil]; unfold desc_by; simpl; lia. }
  assert (symbol Sample.TLKM ∉ (symbol <$> Sample2.sorted_rows)) as Hfresh.
  { apply (bool_decide_unpack _). vm_compute. reflexivity. }
  split; [exact Hsorted|]. split; [exact Hfresh|].
  exact (insert_then_delete_restores Sample.TLKM Sample2.sorted_rows
           Hsorted Hfresh).
Defined.

(** ** The hook as a state machine *)

Lemma stocks_fetchStocks r st :
  useStocks.stocks (useStocks.fetchStocks r st)
  = match useStocks.stocksError r with
    | Some _ => useStocks.stocks st
    | None => default [] (useStocks.stocksData r)
    end.
Proof. unfold useStocks.fetchStocks. by destruct (useStocks.stocksError r). Qed.

Lemma marketStatus_fetchStocks r st :
  useStocks.marketStatus (useStocks.fetchStocks r st)
  = match useStocks.stocksError r with
    | Some _ => useStocks.marketStatus st
    | None => useStocks.statusData r
    end.
Proof. unfold useStocks.fetchStocks. by destruct (useStocks.stocksError r). Qed.

Lemma stocks_onStockChange p st :
  useStocks.stocks (useStocks.onStockChange p st)
  = useStocks.stockUpdater p (useStocks.stocks st).
Proof. by destruct p. Qed.

Lemma stocks_step st i :
  useStocks.stocks (useStocks.step st i)
  = match i with
    | useStocks.Fetched r =>
        match useStocks.stocksError r with
        | Some _ => useStocks.stocks st
        | None => default [] (useStocks.stocksData r)
        end
    | useStocks.StockChange p => useStocks.stockUpdater p (useStocks.stocks st)
    | useStocks.StatusChange _ => useStocks.stocks st
    end.
Proof.
  destruct i as [r|p|p]; simpl.
  - apply stocks_fetchStocks.
  - apply stocks_onStockChange.
  - by destruct p.
Qed.

Lemma run_snoc st inputs i :
  useStocks.run st (inputs ++ [i])
  = useStocks.step (useStocks.run st inputs) i.
Proof. unfold useStocks.run. apply foldl_snoc. Qed.

Lemma Sorted_stockUpdater p l :
  Sorted (desc_by score) l → Sorted (desc_by score) (useStocks.stockUpdater p l).
Proof.
  intros Hl. destruct p as [s|s|k]; simpl.
  - unfold useStocks.upsertStock.
    destruct (useStocks.findIndex _ _); apply js_sort_sorted, byScore_key.
  - unfold useStocks.upsertStock.
    destruct (useStocks.findIndex _ _); apply js_sort_sorted, byScore_key.
  - by apply Sorted_filter.
Qed.

(** X4: the stored collection stays well formed through refreshes and
    events alike: if it holds one row per symbol in score order and every
    fetch delivers one row per symbol in score order, then after any sequence
    of fetches, stock events and status events it still holds one row per
    symbol in score order (a delete needs no re-sort). *)
Theorem run_keeps_rows_distinct_and_ordered (st : useStocks.State)
    (inputs : list useStocks.Input) :
  NoDup (symbol <$> useStocks.stocks st) →
  Sorted (desc_by score) (useStocks.stocks st) →
  Forall well_delivered inputs →
  NoDup (symbol <$> useStocks.stocks (useStocks.run st inputs))
  ∧ Sorted (desc_by score) (useStocks.stocks (useStocks.run st inputs)).
Proof.
  intros Hnd Hsorted Hall. revert st Hnd Hsorted.
  induction Hall as [|i inputs Hi Hall IH]; intros st Hnd Hsorted; [done|].
  change (useStocks.run st (i :: inputs))
    with (useStocks.run (useStocks.step st i) inputs).
  apply IH; rewrite stocks_step; destruct i as [r|p|p]; simpl in Hi |- *;
    try done.
  - destruct (useStocks.stocksError r); [done|].
    destruct (useStocks.stocksData r); simpl; [by destruct Hi|constructor].
  - by apply NoDup_stockUpdater.
  - destruct (useStocks.stocksError r); [done|].
    destruct (useStocks.stocksData r); simpl; [by destruct Hi|constructor].
  - by apply Sorted_stockUpdater.
Qed.

Lemma run_keeps_rows_distinct_and_ordered_witness :
  NoDup (symbol <$> useStocks.stocks useStocks.init)
  ∧ Sorted (desc_by score) (useStocks.stocks useStocks.init)
  ∧ Forall well_delivered Sample2.session
  ∧ NoDup (symbol <$> useStocks.stocks
             (useStocks.run useStocks.init Sample2.session)).
Proof.
  assert (NoDup (symbol <$> useStocks.stocks useStocks.init)) as Hnd
    by constructor.
  assert (Sorted (desc_by score) (useStocks.stocks useStocks.init)) as Hs
    by constructor.
  assert (Forall well_delivered Sample2.session) as Hall.
  { apply List.Forall_cons.
    { split.
      - apply (bool_decide_unpack _). vm_compute. reflexivity.
      - repeat first [apply Sorted_cons | apply Sorted_nil | apply HdRel_cons
                     | apply HdRel_nil]; unfold desc_by; simpl; lia. }
    repeat (apply List.Forall_cons; [exact I|]). apply List.Forall_nil. }
  split; [exact Hnd|]. split; [exact Hs|]. split; [exact Hall|].
  exact (proj1 (run_keeps_rows_distinct_and_ordered useStocks.init
                  Sample2.session Hnd Hs Hall)).
Defined.

Lemma marketStatus_step st i :
  useStocks.marketStatus (useStocks.step st i)
  = match i with
    | useStocks.Fetched r =>
        match useStocks.stocksError r with
        | Some _ => useStocks.marketStatus st
        | None => useStocks.statusData r
        end
    | useStocks.StatusChange (useStocks.STATUS_UPDATE new) => Some new
    | _ => useStocks.marketStatus st
    end.
Proof.
  destruct i as [r|p|p]; simpl.
  - apply marketStatus_fetchStocks.
  - by destruct p.
  - by destruct p.
Qed.

Lemma run_stocks_only inputs st1 st2 :
  useStocks.stocks st1 = useStocks.stocks st2 →
  useStocks.stocks (useStocks.run st1 inputs)
  = useStocks.stocks
      (useStocks.run st2 (filter (λ i, reaches_stocks i = true) inputs)).
Proof.
  revert st1 st2. induction inputs as [|i inputs IH]; intros st1 st2 E; [done|].
  change (useStocks.run st1 (i :: inputs))
    with (useStocks.run (useStocks.step st1 i) inputs).
  rewrite filter_cons. destruct (decide (reaches_stocks i = true)) as [Hi|Hi].
  - change (useStocks.run st2 (i :: ?l))
      with (useStocks.run (useStocks.step st2 i) l).
    apply IH. rewrite !stocks_step. by rewrite E.
  - apply IH. rewrite stocks_step. by destruct i.
Qed.

Lemma run_status_only inputs st1 st2 :
  useStocks.marketStatus st1 = useStocks.marketStatus st2 →
  useStocks.marketStatus (useStocks.run st1 inputs)
  = useStocks.marketStatus
      (useStocks.run st2 (filter (λ i, reaches_status i = true) inputs)).
Proof.
  revert st1 st2. induction inputs as [|i inputs IH]; intros st1 st2 E; [done|].
  change (useStocks.run st1 (i :: inputs))
    with (useStocks.run (useStocks.step st1 i) inputs).
  rewrite filter_cons. destruct (decide (reaches_status i = true)) as [Hi|Hi].
  - change (useStocks.run st2 (i :: ?l))
      with (useStocks.run (useStocks.step st2 i) l).
    apply IH. rewrite !marketStatus_step. by rewrite E.
  - apply IH. rewrite marketStatus_step.
    destruct i as [r|p|[| |]]; simpl in Hi; done.
Qed.

(** X5: the two realtime channels do not interfere: the stored rows after
    any sequence of inputs are those reached when every status event is left
    out, and the status record is the one reached from the fetches and the
    status UPDATE events alone (stock events and status INSERT or DELETE
    events never change it). *)
Theorem channels_do_not_interfere (st : useStocks.State)
    (inputs : list useStocks.Input) :
  useStocks.stocks (useStocks.run st inputs)
  = useStocks.stocks
      (useStocks.run st (filter (λ i, reaches_stocks i = true) inputs))
  ∧ useStocks.marketStatus (useStocks.run st inputs)
    = useStocks.marketStatus
        (useStocks.run st (filter (λ i, reaches_status i = true) inputs)).
Proof. split; [by apply run_stocks_only|by apply run_status_only]. Qed.

(** X6: a fetch settles the state whatever came before it.  When the
    [stocks] query succeeds the rows are exactly those delivered (none for a
    null result), the status is the delivered one and any earlier error is
    cleared, so change events applied before the fetch resolved are
    overwritten; when it fails the rows and the status stay as they were and
    the error message is set.  Either way [loading] ends false. *)
Theorem fetch_settles_the_state (st : useStocks.State)
    (inputs : list useStocks.Input) (r : useStocks.FetchResult) :
  useStocks.loading (useStocks.run st (inputs ++ [useStocks.Fetched r]))
  = false
  ∧ match useStocks.stocksError r with
    | None =>
        useStocks.stocks (useStocks.run st (inputs ++ [useStocks.Fetched r]))
        = default [] (useStocks.stocksData r)
        ∧ useStocks.marketStatus
            (useStocks.run st (inputs ++ [useStocks.Fetched r]))
          = useStocks.statusData r
        ∧ useStocks.error
            (useStocks.run st (inputs ++ [useStocks.Fetched r]))
          = None
    | Some err =>
        useStocks.stocks (useStocks.run st (inputs ++ [useStocks.Fetched r]))
        = useStocks.stocks (useStocks.run st inputs)
        ∧ useStocks.marketStatus
            (useStocks.run st (inputs ++ [useStocks.Fetched r]))
          = useStocks.marketStatus (useStocks.run st inputs)
        ∧ useStocks.error
            (useStocks.run st (inputs ++ [useStocks.Fetched r]))
          = Some (default "Failed to fetch data"%string err)
    end.
Proof.
  rewrite run_snoc. simpl. unfold useStocks.fetchStocks.
  by destruct (useStocks.stocksError r).
Qed.

(** ** The size of the bonuses *)

(** X7: the three bonuses add between 0 and 100 to the score, in one of
    seven amounts; so a row whose score exceeds another row's by more than
    100 is ranked before it whatever the bonuses, and two rows with equal
    bonuses are ranked by score. *)
Theorem bonus_range_and_dominance (a b : Stock) :
  bonus a ∈ [0; 20; 30; 50; 70; 80; 100]
  ∧ score a ≤ useStocks.getRecommendationScore a ≤ score a + 100
  ∧ (score b + 100 < score a → useStocks.sortByRecommendation a b < 0)
  ∧ (bonus a = bonus b →
     useStocks.sortByRecommendation a b = useStocks.byScore a b).
Proof.
  assert (bonus a ∈ [0; 20; 30; 50; 70; 80; 100]) as Ha.
  { unfold bonus. rewrite getRecommendationScore_bonuses.
    destruct (decide (acc_dist_status a = accumulation)),
      (decide (0 < net_foreign a)), (Qlt_le_dec 0 (change_percent a));
      match goal with
      | |- ?x ∈ _ =>
          first [ replace x with 0 by lia | replace x with 20 by lia
                | replace x with 30 by lia | replace x with 50 by lia
                | replace x with 70 by lia | replace x with 80 by lia
                | replace x with 100 by lia ]
      end; set_solver. }
  split; [exact Ha|].
  assert (∀ s, 0 ≤ bonus s ≤ 100) as Hb.
  { intros s. unfold bonus. rewrite getRecommendationScore_bonuses.
    destruct (decide (acc_dist_status s = accumulation)),
      (decide (0 < net_foreign s)), (Qlt_le_dec 0 (change_percent s)); lia. }
  pose proof (Hb a) as Hba. pose proof (Hb b) as Hbb.
  unfold bonus, useStocks.sortByRecommendation, useStocks.byScore in *.
  repeat split; intros; lia.
Qed.

(** ** The page *)

Lemma prefix_append sub s :
  String.prefix sub s = true ↔ ∃ post, s = String.append sub post.
Proof.
  revert s. induction sub as [|a sub IH]; intros s.
  - split; [intros _; by exists s|intros _; by destruct s].
  - destruct s as [|b s]; simpl.
    + split; [done|]. by intros [post [=]].
    + destruct (Ascii.ascii_dec a b) as [->|Hne].
      * rewrite IH. split; intros [post E]; exists post;
          change (String b sub +:+ post) with (String b (sub +:+ post)) in *;
          congruence.
      * split; [done|]. intros [post [= ? _]]. done.
Qed.

(** [includes] is the substring test. *)
Lemma includes_substring s sub :
  App.includes s sub = true
  ↔ ∃ pre post, s = String.append pre (String.append sub post).
Proof.
  induction s as [|c s IH].
  - change (App.includes "" sub) with (String.prefix sub "" || false).
    rewrite orb_false_r, prefix_append. split.
    + intros [post E]. by exists EmptyString, post.
    + intros ([|c pre] & post & E); [by exists post|done].
  - change (App.includes (String c s) sub)
      with (String.prefix sub (String c s) || App.includes s sub).
    rewrite orb_true_iff, prefix_append, IH. split.
    + intros [[post E]|(pre & post & E)].
      * by exists EmptyString, post.
      * exists (String c pre), post.
        change (String c pre +:+ sub +:+ post)
          with (String c (pre +:+ sub +:+ post)).
        by rewrite E.
    + intros ([|c' pre] & post & E).
      * left. by exists post.
      * right. exists pre, post.
        change (String c' pre +:+ sub +:+ post)
          with (String c' (pre +:+ sub +:+ post)) in E.
        congruence.
Qed.

Lemma includes_empty s : App.includes s "" = true.
Proof. apply includes_substring. by exists EmptyString, s. Qed.

Lemma displayStocks_sorted hook app :
  Sorted (desc_by useStocks.getRecommendationScore)
    (App.displayStocks hook app).
Proof.
  unfold App.displayStocks, useStocks.screenedStocks, useStocks.returnedStocks.
  destruct (App.showScreenedOnly app);
    apply js_sort_sorted, sortByRecommendation_key.
Qed.

(** X8: the rows the table receives are the displayed rows (the screened
    ones under the "Screened" toggle, all rows otherwise) in which the
    lower-cased search term occurs in the lower-cased symbol or name; they
    keep the combined-ranking order, and an empty search term shows every
    displayed row. *)
Theorem search_filters_displayed_rows (toLowerCase : string → string)
    (hook : useStocks.State) (app : App.State) :
  toLowerCase "" = ""%string →
  (∀ s, s ∈ App.filteredStocks toLowerCase hook app
        ↔ s ∈ useStocks.stocks hook
          ∧ (App.showScreenedOnly app = true → passed_screen s = true)
          ∧ ((∃ pre post,
                toLowerCase (symbol s)
                = String.append pre
                    (String.append (toLowerCase (App.searchTerm app)) post))
             ∨ (∃ pre post,
                  toLowerCase (name s)
                  = String.append pre
                      (String.append (toLowerCase (App.searchTerm app))
                         post))))
  ∧ App.filteredStocks toLowerCase hook app
      `sublist_of` App.displayStocks hook app
  ∧ Sorted (desc_by useStocks.getRecommendationScore)
      (App.filteredStocks toLowerCase hook app)
  ∧ (App.searchTerm app = ""%string →
     App.filteredStocks toLowerCase hook app = App.displayStocks hook app).
Proof.
  intros Hlower. split; [|split; [apply sublist_filter|split]].
  - intros s. unfold App.filteredStocks, App.matches.
    rewrite list_elem_of_filter, orb_true_iff, !includes_substring.
    unfold App.displayStocks, useStocks.screenedStocks,
      useStocks.returnedStocks.
    destruct (App.showScreenedOnly app).
    + rewrite js_sort_perm, list_elem_of_filter. tauto.
    + rewrite js_sort_perm. split; [|tauto].
      intros [? ?]. split; [done|]. split; [done|done].
  - apply Sorted_filter, displayStocks_sorted.
  - intros Hterm. apply filter_all, Forall_forall. intros s _.
    unfold App.matches. by rewrite Hterm, Hlower, includes_empty.
Qed.

Lemma search_filters_displayed_rows_witness :
  Sample2.lower "" = ""%string
  ∧ App.filteredStocks Sample2.lower Sample2.hook App.init
    = App.displayStocks Sample2.hook App.init.
Proof.
  assert (Sample2.lower "" = ""%string) as Hlower by reflexivity.
  split; [exact Hlower|].
  exact (proj2 (proj2 (proj2
           (search_filters_displayed_rows Sample2.lower Sample2.hook App.init
              Hlower))) eq_refl).
Defined.

Example search_is_case_insensitive :
  symbol <$> App.filteredStocks Sample2.lower Sample2.hook
               {| App.showScreenedOnly := false; App.searchTerm := "bb" |}
  = ["BBCA"%string].
Proof. reflexivity. Qed.

Lemma nearest_tenth_range q :
  (0 <= q)%Q → (q <= 100)%Q → 0 ≤ StatsCards.nearest_tenth q ≤ 1000.
Proof.
  intros H0 H100. unfold StatsCards.nearest_tenth.
  apply Qle_bool_iff in H0 as Hb. rewrite Hb. split.
  - change 0 with (Qfloor 0). apply Qfloor_resp_le. lra.
  - change 1000 with (Qfloor (2001 # 2)). apply Qfloor_resp_le. lra.
Qed.

Lemma percent_range (part total : Z) :
  0 ≤ part ≤ total → 0 < total →
  (0 <= inject_Z part / inject_Z total * 100)%Q
  ∧ (inject_Z part / inject_Z total * 100 <= 100)%Q.
Proof.
  intros [H0 H1] Ht.
  assert (0 < inject_Z total)%Q by (unfold Qlt; simpl; lia).
  assert (0 <= inject_Z part)%Q by (unfold Qle; simpl; lia).
  assert (inject_Z part <= inject_Z total)%Q by (unfold Qle; simpl; lia).
  split.
  - apply Qmult_le_0_compat; [|lra]. apply Qle_shift_div_l; lra.
  - assert (inject_Z part / inject_Z total <= 1)%Q; [|lra].
    apply Qle_shift_div_r; lra.
Qed.

(** X9: fed by [App] with the lengths of the hook's two collections, the
    pass-rate card shows the number 0 exactly when there is no row, and
    otherwise a one-decimal percentage between 0.0 and 100.0; the screened
    count it receives never exceeds the total. *)
Theorem pass_rate_card_is_a_percentage (hook : useStocks.State) :
  (length (useStocks.screenedStocks hook)
   ≤ length (useStocks.returnedStocks hook))%nat
  ∧ length (useStocks.returnedStocks hook) = length (useStocks.stocks hook)
  ∧ ((useStocks.stocks hook = []
      ∧ App.passRateCard hook = StatsCards.Number 0)
     ∨ (useStocks.stocks hook ≠ []
        ∧ ∃ tenths, App.passRateCard hook = StatsCards.Fixed1 tenths
                    ∧ 0 ≤ tenths ≤ 1000)).
Proof.
  assert (length (useStocks.returnedStocks hook)
          = length (useStocks.stocks hook)) as Hall.
  { unfold useStocks.returnedStocks. by rewrite js_sort_perm. }
  assert (length (useStocks.screenedStocks hook)
          ≤ length (useStocks.returnedStocks hook))%nat as Hle.
  { rewrite Hall. unfold useStocks.screenedStocks.
    rewrite js_sort_perm. apply length_filter. }
  split; [done|]. split; [done|].
  unfold App.passRateCard, StatsCards.passRate.
  destruct (useStocks.stocks hook) as [|s l] eqn:E.
  - left. split; [done|]. rewrite Hall. reflexivity.
  - right. split; [done|].
    assert (0 < Z.of_nat (length (useStocks.returnedStocks hook))) as Hpos.
    { rewrite Hall. simpl. lia. }
    apply Z.ltb_lt in Hpos as Hb. rewrite Hb.
    unfold StatsCards.div.
    assert ((Z.of_nat (length (useStocks.returnedStocks hook)) =? 0) = false)
      as -> by (apply Z.eqb_neq; lia).
    simpl. eexists. split; [done|].
    apply nearest_tenth_range; apply percent_range; lia.
Qed.

(** ** The status bar *)


(** ** The table component *)

Lemma Qle_bool_false a b : Qle_bool a b = false → (b < a)%Q.
Proof.
  intros E. apply Qnot_le_lt. intros H%Qle_bool_iff. congruence.
Qed.

(** X11: [formatNumber] abbreviates from 1000 upwards only: every value
    below 1000, so every negative value whatever its size (a net foreign
    sale), is printed in full; from 1000 on the figure handed to [toFixed]
    is at least 1, and it is below 1000 for values below 10^15. *)
Theorem formatNumber_abbreviates_from_1000 (num : Q) :
  ((num < 1000)%Q → StockTable.formatNumber num = StockTable.Localized num)
  ∧ ((1000 <= num)%Q →
     ∃ scaled suffix,
       StockTable.formatNumber num = StockTable.Abbreviated scaled suffix
       ∧ (1 <= scaled)%Q
       ∧ ((num < 1000000000000000)%Q → (scaled < 1000)%Q)).
Proof.
  unfold StockTable.formatNumber.
  destruct (Qle_bool 1000000000000 num) eqn:E12;
    [apply Qle_bool_iff in E12|apply Qle_bool_false in E12;
     destruct (Qle_bool 1000000000 num) eqn:E9;
       [apply Qle_bool_iff in E9|apply Qle_bool_false in E9;
        destruct (Qle_bool 1000000 num) eqn:E6;
          [apply Qle_bool_iff in E6|apply Qle_bool_false in E6;
           destruct (Qle_bool 1000 num) eqn:E3;
             [apply Qle_bool_iff in E3|apply Qle_bool_false in E3]]]].
  all: split; [intros Hlt; try done; exfalso; lra|intros Hge].
  5: exfalso; lra.
  all: eexists _, _; split; [reflexivity|]; split;
    [apply Qle_shift_div_l; [reflexivity|lra]
    |intros Hbig; apply Qlt_shift_div_r; [reflexivity|lra]].
Qed.

Example formatNumber_samples :
  StockTable.formatNumber (-5000000000)
  = StockTable.Localized (-5000000000)
  ∧ StockTable.formatNumber 2500000
    = StockTable.Abbreviated (2500000 / 1000000) StockTable.M
  ∧ StockTable.formatNumber 999 = StockTable.Localized 999.
Proof. repeat split. Qed.

Lemma filter_none {A} (P : A → Prop) `{!∀ x, Decision (P x)} (l : list A) :
  Forall (λ x, ¬ P x) l → filter P l = [].
Proof.
  induction 1 as [|x l Hx Hl IH]; [done|].
  by rewrite filter_cons_False.
Qed.

Lemma expandedRows_at_most_one e stocks :
  NoDup (symbol <$> stocks) →
  (length (StockTable.expandedRows e stocks) ≤ 1)%nat.
Proof.
  unfold StockTable.expandedRows.
  induction stocks as [|x l IH]; [simpl; lia|].
  rewrite fmap_cons, NoDup_cons. intros [Hx Hl].
  rewrite filter_cons. destruct (decide (e = Some (symbol x))) as [->|Hne].
  - rewrite filter_none; [simpl; lia|].
    apply Forall_forall. intros y Hy [= E].
    apply Hx, list_elem_of_fmap. by exists y.
  - by apply IH.
Qed.

(** X12: row expansion is a toggle on a single slot: after any run of
    clicks the expanded row is the last row clicked or none; clicking the
    expanded row collapses it and clicking any other row expands that one;
    and with one row per symbol at most one detail row is rendered. *)
Theorem row_expansion_toggles (expandedRow : option string)
    (syms : list string) (sym : string) (stocks : list Stock) :
  (StockTable.clicks expandedRow (syms ++ [sym]) = None
   ∨ StockTable.clicks expandedRow (syms ++ [sym]) = Some sym)
  ∧ StockTable.onRowClick sym (Some sym) = None
  ∧ (expandedRow ≠ Some sym →
     StockTable.onRowClick sym expandedRow = Some sym)
  ∧ StockTable.onRowClick sym (StockTable.onRowClick sym expandedRow)
    = (if decide (expandedRow = Some sym) then Some sym else None)
  ∧ (NoDup (symbol <$> stocks) →
     (length (StockTable.expandedRows expandedRow stocks) ≤ 1)%nat).
Proof.
  split; [|split; [|split; [|split]]].
  - unfold StockTable.clicks. rewrite foldl_snoc.
    unfold StockTable.onRowClick. case_decide; auto.
  - unfold StockTable.onRowClick. by rewrite decide_True.
  - intros Hne. unfold StockTable.onRowClick. by rewrite decide_False.
  - unfold StockTable.onRowClick.
    destruct (decide (expandedRow = Some sym)) as [->|Hne].
    + by rewrite decide_False.
    + by rewrite decide_True.
  - apply expandedRows_at_most_one.
Qed.

(** ** The primary key of [stocks] *)

Lemma key_free_fresh r t :
  StocksTable.key_free r t = true ↔ symbol r ∉ (symbol <$> t).
Proof.
  unfold StocksTable.key_free. induction t as [|x t IH]; simpl.
  - split; [intros _; apply not_elem_of_nil|done].
  - rewrite andb_true_iff, IH, not_elem_of_cons, negb_true_iff.
    rewrite String.eqb_neq. split; intros [H1 H2];
      (split; [intros ?; by apply H1|done]).
Qed.

Lemma NoDup_insert_all fits t rs :
  NoDup (symbol <$> t) →
  NoDup (symbol <$> StocksTable.insert_all fits t rs).
Proof.
  revert t. induction rs as [|r rs IH]; intros t Hnd; [done|].
  apply IH. unfold StocksTable.insert.
  destruct (fits r); [|done].
  destruct (StocksTable.key_free r t) eqn:E; [|done]. simpl.
  apply key_free_fresh in E.
  rewrite fmap_app. apply NoDup_app. split; [done|]. split.
  - intros k Hk [->|[]%elem_of_nil]%elem_of_cons. done.
  - apply NoDup_singleton.
Qed.

(** X13: the primary key on [symbol] keeps the table at one row per
    symbol: whatever rows are inserted into a fresh table, the stored rows
    have distinct symbols, an insert of a stored symbol is rejected, and
    every [ORDER BY score DESC] read of the table is a fetch result with one
    row per symbol in score order. *)
Theorem primary_key_keeps_symbols_distinct (fits : Stock → bool)
    (rs out : list Stock) (r : Stock) (status : option MS.MarketStatus) :
  NoDup (symbol <$> StocksTable.insert_all fits [] rs)
  ∧ (symbol r ∈ (symbol <$> StocksTable.insert_all fits [] rs) →
     StocksTable.insert fits r (StocksTable.insert_all fits [] rs) = None)
  ∧ (Schema.order_by_score_desc (StocksTable.insert_all fits [] rs) out →
     well_delivered
       (useStocks.Fetched
          {| useStocks.stocksData := Some out;
             useStocks.stocksError := None;
             useStocks.statusData := status |})).
Proof.
  assert (NoDup (symbol <$> StocksTable.insert_all fits [] rs)) as Hnd
    by (apply NoDup_insert_all; constructor).
  split; [done|]. split.
  - intros Hin. unfold StocksTable.insert.
    destruct (fits r); [|done].
    destruct (StocksTable.key_free r _) eqn:E; [|done].
    by apply key_free_fresh in E.
  - intros [Hperm Hsorted]. simpl. split; [|done]. by rewrite Hperm.
Qed.

(** ** Seeding the status row *)

(** X14: running the seeding statement of the schema script again never
    overwrites the status: on a table that already holds the row with
    [id = 1], [INSERT ... ON CONFLICT (id) DO NOTHING] succeeds and leaves
    the table exactly as it was. *)
Theorem seeding_keeps_current_status (t : list MS.MarketStatus)
    (r : MS.MarketStatus) (now : string) :
  r ∈ t → MS.id r = 1 →
  Schema.insert_on_conflict_do_nothing (Schema.default_status now) t = Some t.
Proof.
  intros Hin Hid.
  unfold Schema.insert_on_conflict_do_nothing, Schema.single_row.
  simpl. destruct (Schema.key_free (Schema.default_status now) t) eqn:E; [|done].
  unfold Schema.key_free in E. rewrite forallb_forall in E.
  apply list_elem_of_In in Hin. specialize (E r Hin).
  simpl in E. by rewrite Hid in E.
Qed.

Lemma seeding_keeps_current_status_witness :
  Sample.status_open ∈ [Sample.status_open]
  ∧ MS.id Sample.status_open = 1
  ∧ Schema.insert_on_conflict_do_nothing (Schema.default_status "t1")
      [Sample.status_open]
    = Some [Sample.status_open].
Proof.
  assert (Sample.status_open ∈ [Sample.status_open]) as Hin
    by apply list_elem_of_here.
  split; [exact Hin|]. split; [reflexivity|].
  exact (seeding_keeps_current_status [Sample.status_open] Sample.status_open
           "t1" Hin eq_refl).
Defined.

(** ** The view and the client's screened list *)

(** X15: whatever the order, the [screened_stocks] view of a table and the
    screened list the hook computes from the same rows hold exactly the same
    rows, each as often: the two differ at most in the order. *)
Theorem view_and_hook_screen_the_same_rows (st : useStocks.State)
    (out : list Stock) :
  Schema.screened_stocks (useStocks.stocks st) out →
  out ≡ₚ useStocks.screenedStocks st
  ∧ length out = length (useStocks.screenedStocks st)
  ∧ ∀ s, s ∈ out ↔ s ∈ useStocks.stocks st ∧ passed_screen s = true.
Proof.
  intros [Hperm _].
  assert (out ≡ₚ useStocks.screenedStocks st) as Hsame.
  { unfold useStocks.screenedStocks. by rewrite js_sort_perm. }
  split; [done|]. split; [by rewrite Hsame|].
  intros s. rewrite Hperm, list_elem_of_filter. tauto.
Qed.

Lemma view_and_hook_screen_the_same_rows_witness :
  Schema.screened_stocks (useStocks.stocks Sample2.hook)
    [Sample.ASII; Sample.BBCA]
  ∧ [Sample.ASII; Sample.BBCA] ≡ₚ useStocks.screenedStocks Sample2.hook.
Proof.
  assert (Schema.screened_stocks (useStocks.stocks Sample2.hook)
            [Sample.ASII; Sample.BBCA]) as Hview.
  { split; [reflexivity|].
    repeat first [apply Sorted_cons | apply Sorted_nil | apply HdRel_cons
                 | apply HdRel_nil].
    left. simpl. lia. }
  split; [exact Hview|].
  exact (proj1 (view_and_hook_screen_the_same_rows Sample2.hook
                  [Sample.ASII; Sample.BBCA] Hview)).
Defined.
